(** * NetClient: a shallow embedding of [src/netClient.js]

    The client mirrors server state (identity, room, ownership) by
    interpreting inbound WebSocket frames, and publishes events to
    registered callbacks.  The embedding follows the class method by
    method; the platform pieces it calls ([JSON.parse], [DataView],
    [ArrayBuffer.slice], [Array.forEach], strict equality) are modelled
    in the first half of the file. *)

From Stdlib Require Import ZArith NArith List Bool Lia String Ascii.
From Stdlib Require Import Strings.Byte.
From Stdlib Require Import Floats.SpecFloat.
From stdpp Require Import base option list gmap.
Import ListNotations.

Set Warnings "-register-all".
Local Open Scope Z_scope.

(** ** JavaScript numbers

    A JS number is an IEEE-754 binary64 value: [spec_float] at
    precision 53 and maximal exponent 1024. *)

Module Num.

Definition prec : Z := 53.
Definition emax : Z := 1024.

Definition number := spec_float.

Definition is_nan (x : number) : bool :=
  match x with S754_nan => true | _ => false end.

(** Strict equality on numbers: NaN differs from everything, the two
    zeros are equal. *)
Definition eqb (x y : number) : bool := SFeqb x y.

(** The number denoted by an integer (round to nearest even). *)
Definition of_Z (z : Z) : number := binary_normalize prec emax z 0 false.

(** The number denoted by the decimal [(-1)^neg * m * 10^e], as
    [JSON.parse] reads a numeric literal: the nearest binary64 value,
    ties to even. *)
Definition of_decimal (neg : bool) (m : N) (e : Z) : number :=
  match m with
  | N0 => S754_zero neg
  | Npos p =>
      match e with
      | Zneg k => SFdiv prec emax (S754_finite neg p 0)
                                 (S754_finite false (Pos.pow 10 k) 0)
      | _ => binary_round prec emax neg (p * Z.to_pos (10 ^ e)) 0
      end
  end.

(** The integer value of a number that is a non-negative integer. *)
Definition to_Z (x : number) : option Z :=
  match x with
  | S754_zero _ => Some 0
  | S754_finite false m e =>
      match e with
      | Zneg k => if (Z.land (Zpos m) (Z.ones (Zpos k)) =? 0)
                  then Some (Z.shiftr (Zpos m) (Zpos k)) else None
      | _ => Some (Z.shiftl (Zpos m) e)
      end
  | _ => None
  end.

End Num.

(** ** JavaScript strings and values *)

(** A JS string is a sequence of UTF-16 code units. *)
Abbreviation jsstring := (list N).

(** The JS string of an ASCII literal. *)
Definition js (s : string) : jsstring :=
  map N_of_ascii (list_ascii_of_string s).

(** The JS string of a literal in which an apostrophe stands for the
    double quote; used for the JSON texts of the examples. *)
Definition jq (s : string) : jsstring :=
  map (fun c => if (c =? 39)%N then 34%N else c) (js s).

(** Objects, arrays and array buffers live on the heap and are compared
    by identity: each carries the address it was allocated at. *)
Definition loc := N.

Inductive value :=
| VUndefined
| VNull
| VBool (b : bool)
| VNum (x : Num.number)
| VStr (s : jsstring)
| VArr (l : loc) (elems : list value)
| VObj (l : loc) (fields : list (jsstring * value))
| VBuf (l : loc) (bytes : list byte).

(** [a === b] *)
Definition strict_eq (a b : value) : bool :=
  match a, b with
  | VUndefined, VUndefined => true
  | VNull, VNull => true
  | VBool x, VBool y => Bool.eqb x y
  | VNum x, VNum y => Num.eqb x y
  | VStr s, VStr t => bool_decide (s = t)
  | VArr l _, VArr l' _ => (l =? l')%N
  | VObj l _, VObj l' _ => (l =? l')%N
  | VBuf l _, VBuf l' _ => (l =? l')%N
  | _, _ => false
  end.

Definition is_null (v : value) : bool :=
  match v with VNull => true | _ => false end.

Definition is_nullish (v : value) : bool :=
  match v with VNull | VUndefined => true | _ => false end.

(** ToBoolean *)
Definition truthy (v : value) : bool :=
  match v with
  | VUndefined | VNull => false
  | VBool b => b
  | VNum (S754_zero _) | VNum S754_nan => false
  | VStr [] => false
  | _ => true
  end.

(** The code points of a string, each as a string of one or two code
    units: a high surrogate followed by a low one is one code point. *)
Definition is_high_surrogate (c : N) : bool := ((55296 <=? c) && (c <=? 56319))%N.

Definition is_low_surrogate (c : N) : bool := ((56320 <=? c) && (c <=? 57343))%N.

Fixpoint code_points (s : jsstring) : list jsstring :=
  match s with
  | [] => []
  | c :: rest =>
      match rest with
      | c' :: rest' =>
          if is_high_surrogate c && is_low_surrogate c'
          then [c; c'] :: code_points rest'
          else [c] :: code_points rest
      | [] => [[c]]
      end
  end.

(** What iterating a value yields: the elements of an array, the code
    points of a string; the other values of this model -- [undefined],
    [null], booleans, numbers, plain objects, array buffers -- are not
    iterable. *)
Definition iterate (v : value) : option (list value) :=
  match v with
  | VArr _ elems => Some elems
  | VStr s => Some (map VStr (code_points s))
  | _ => None
  end.

(** The value of an own property: when a key was defined twice the
    later definition is the one that counts. *)
Fixpoint get_own (fields : list (jsstring * value)) (k : jsstring) : option value :=
  match fields with
  | [] => None
  | (k', v) :: rest =>
      match get_own rest k with
      | Some v' => Some v'
      | None => if bool_decide (k' = k) then Some v else None
      end
  end.

(** The value of [o.k] for [o] other than [null] and [undefined], and
    [k] one of the property names the client reads ([type], [playerId],
    [roomId], ...): none of them is an index, [length] or a member of a
    built-in prototype, so only an object's own properties can define
    them; elsewhere they are [undefined]. *)
Definition field (o : value) (k : string) : value :=
  match o with
  | VObj _ fields =>
      match get_own fields (js k) with
      | Some v => v
      | None => VUndefined
      end
  | _ => VUndefined
  end.

(** ** JSON.parse

    The JSON grammar of ECMA-404, as a lexer that is an automaton over
    code units and a parser that is a pushdown automaton over tokens;
    both consume their input in one structural pass. *)

Module JSON.

(** A numeric literal being read: sign, the digits of integer and
    fraction as one decimal mantissa, how many of them are fraction
    digits, and the exponent part. *)
Record numacc := {
  n_neg : bool;
  n_mant : N;
  n_scale : Z;
  n_eneg : bool;
  n_exp : N
}.

Definition num_start (neg : bool) (d : N) : numacc :=
  {| n_neg := neg; n_mant := d; n_scale := 0; n_eneg := false; n_exp := 0 |}.

Definition add_int (a : numacc) (d : N) : numacc :=
  {| n_neg := n_neg a; n_mant := (n_mant a * 10 + d)%N; n_scale := n_scale a;
     n_eneg := n_eneg a; n_exp := n_exp a |}.

Definition add_frac (a : numacc) (d : N) : numacc :=
  {| n_neg := n_neg a; n_mant := (n_mant a * 10 + d)%N; n_scale := n_scale a + 1;
     n_eneg := n_eneg a; n_exp := n_exp a |}.

Definition set_eneg (a : numacc) : numacc :=
  {| n_neg := n_neg a; n_mant := n_mant a; n_scale := n_scale a;
     n_eneg := true; n_exp := n_exp a |}.

Definition add_exp (a : numacc) (d : N) : numacc :=
  {| n_neg := n_neg a; n_mant := n_mant a; n_scale := n_scale a;
     n_eneg := n_eneg a; n_exp := (n_exp a * 10 + d)%N |}.

Definition num_value (a : numacc) : Num.number :=
  Num.of_decimal (n_neg a) (n_mant a)
    ((if n_eneg a then - Z.of_N (n_exp a) else Z.of_N (n_exp a)) - n_scale a).

Inductive token :=
| TLBrace | TRBrace | TLBracket | TRBracket | TColon | TComma
| TString (s : jsstring)
| TNumber (a : numacc)
| TTrue | TFalse | TNull.

(** Where in the number grammar the lexer stands:
    after the minus sign, after a leading zero, in the integer digits,
    after the point, in the fraction digits, after e or E, after the
    exponent sign, in the exponent digits. *)
Inductive numphase := PMinus | PZero | PInt | PDot | PFrac | PE | PESign | PExp.

Inductive lstate :=
| LStart
| LWord (rest : list N) (t : token)
| LString (acc : list N)
| LEscape (acc : list N)
| LUnicode (acc : list N) (k : nat) (v : N)
| LNumber (ph : numphase) (a : numacc).

Definition is_ws (c : N) : bool :=
  match c with 32 | 9 | 10 | 13 => true | _ => false end%N.

Definition digit (c : N) : option N :=
  if ((48 <=? c) && (c <=? 57))%N then Some (c - 48)%N else None.

Definition hex (c : N) : option N :=
  if ((48 <=? c) && (c <=? 57))%N then Some (c - 48)%N
  else if ((65 <=? c) && (c <=? 70))%N then Some (c - 55)%N
  else if ((97 <=? c) && (c <=? 102))%N then Some (c - 87)%N
  else None.

(** The lexer between tokens, reading code unit [c]. *)
Definition start_step (c : N) : option (lstate * list token) :=
  if is_ws c then Some (LStart, [])
  else match c with
  | 123 => Some (LStart, [TLBrace])
  | 125 => Some (LStart, [TRBrace])
  | 91 => Some (LStart, [TLBracket])
  | 93 => Some (LStart, [TRBracket])
  | 58 => Some (LStart, [TColon])
  | 44 => Some (LStart, [TComma])
  | 34 => Some (LString [], [])
  | 45 => Some (LNumber PMinus (num_start true 0), [])
  | 48 => Some (LNumber PZero (num_start false 0), [])
  | 116 => Some (LWord (js "rue") TTrue, [])
  | 102 => Some (LWord (js "alse") TFalse, [])
  | 110 => Some (LWord (js "ull") TNull, [])
  | _ => match digit c with
         | Some d => Some (LNumber PInt (num_start false d), [])
         | None => None
         end
  end%N.

(** The numeric literal ends before [c]. *)
Definition end_number (a : numacc) (c : N) : option (lstate * list token) :=
  match start_step c with
  | Some (st, toks) => Some (st, TNumber a :: toks)
  | None => None
  end.

Definition is_e (c : N) : bool := ((c =? 101) || (c =? 69))%N.

Definition number_step (ph : numphase) (a : numacc) (c : N)
  : option (lstate * list token) :=
  match ph with
  | PMinus =>
      match digit c with
      | Some 0%N => Some (LNumber PZero a, [])
      | Some d => Some (LNumber PInt (add_int a d), [])
      | None => None
      end
  | PZero =>
      if (c =? 46)%N then Some (LNumber PDot a, [])
      else if is_e c then Some (LNumber PE a, [])
      else end_number a c
  | PInt =>
      match digit c with
      | Some d => Some (LNumber PInt (add_int a d), [])
      | None =>
          if (c =? 46)%N then Some (LNumber PDot a, [])
          else if is_e c then Some (LNumber PE a, [])
          else end_number a c
      end
  | PDot =>
      match digit c with
      | Some d => Some (LNumber PFrac (add_frac a d), [])
      | None => None
      end
  | PFrac =>
      match digit c with
      | Some d => Some (LNumber PFrac (add_frac a d), [])
      | None => if is_e c then Some (LNumber PE a, []) else end_number a c
      end
  | PE =>
      match digit c with
      | Some d => Some (LNumber PExp (add_exp a d), [])
      | None =>
          if (c =? 43)%N then Some (LNumber PESign a, [])
          else if (c =? 45)%N then Some (LNumber PESign (set_eneg a), [])
          else None
      end
  | PESign =>
      match digit c with
      | Some d => Some (LNumber PExp (add_exp a d), [])
      | None => None
      end
  | PExp =>
      match digit c with
      | Some d => Some (LNumber PExp (add_exp a d), [])
      | None => end_number a c
      end
  end.

Definition escape_step (acc : list N) (c : N) : option (lstate * list token) :=
  match c with
  | 34 => Some (LString (34 :: acc), [])
  | 92 => Some (LString (92 :: acc), [])
  | 47 => Some (LString (47 :: acc), [])
  | 98 => Some (LString (8 :: acc), [])
  | 102 => Some (LString (12 :: acc), [])
  | 110 => Some (LString (10 :: acc), [])
  | 114 => Some (LString (13 :: acc), [])
  | 116 => Some (LString (9 :: acc), [])
  | 117 => Some (LUnicode acc 4 0, [])
  | _ => None
  end%N.

Definition lex_step (st : lstate) (c : N) : option (lstate * list token) :=
  match st with
  | LStart => start_step c
  | LWord [] _ => None
  | LWord (x :: rest) t =>
      if (c =? x)%N
      then match rest with
           | [] => Some (LStart, [t])
           | _ => Some (LWord rest t, [])
           end
      else None
  | LString acc =>
      if (c =? 34)%N then Some (LStart, [TString (rev acc)])
      else if (c =? 92)%N then Some (LEscape acc, [])
      else if (c <? 32)%N then None
      else Some (LString (c :: acc), [])
  | LEscape acc => escape_step acc c
  | LUnicode acc k v =>
      match hex c with
      | Some h =>
          match k with
          | 1%nat => Some (LString ((v * 16 + h)%N :: acc), [])
          | _ => Some (LUnicode acc (Nat.pred k) (v * 16 + h)%N, [])
          end
      | None => None
      end
  | LNumber ph a => number_step ph a c
  end.

(** End of input. *)
Definition lex_end (st : lstate) : option (list token) :=
  match st with
  | LStart => Some []
  | LNumber (PZero | PInt | PFrac | PExp) a => Some [TNumber a]
  | _ => None
  end.

Fixpoint lex (st : lstate) (s : jsstring) : option (list token) :=
  match s with
  | [] => lex_end st
  | c :: s' =>
      match lex_step st c with
      | Some (st', toks) =>
          match lex st' s' with
          | Some more => Some (toks ++ more)
          | None => None
          end
      | None => None
      end
  end.

(** A container under construction, its members most recent first;
    an object also holds the key whose value is being read. *)
Inductive pframe :=
| InArray (elems : list value)
| InObject (fields : list (jsstring * value)) (key : option jsstring).

(** What the grammar allows next: a value; a value or the closing
    bracket; a key or the closing brace; a key; the colon; a comma or
    a closer; nothing, the text's value being complete. *)
Inductive pmode :=
| MValue | MArrayStart | MObjectStart | MKey | MColon | MAfter
| MDone (v : value).

Record pstate := {
  stack : list pframe;
  mode : pmode;
  next : loc
}.

(** A value is complete: it is the text's value or joins the
    innermost open container. *)
Definition complete (v : value) (stk : list pframe) (nx : loc) : option pstate :=
  match stk with
  | [] => Some {| stack := []; mode := MDone v; next := nx |}
  | InArray elems :: stk' =>
      Some {| stack := InArray (v :: elems) :: stk'; mode := MAfter; next := nx |}
  | InObject fields (Some k) :: stk' =>
      Some {| stack := InObject ((k, v) :: fields) None :: stk';
              mode := MAfter; next := nx |}
  | InObject _ None :: _ => None
  end.

Definition close_array (st : pstate) : option pstate :=
  match stack st with
  | InArray elems :: stk' =>
      complete (VArr (next st) (rev elems)) stk' (N.succ (next st))
  | _ => None
  end.

Definition close_object (st : pstate) : option pstate :=
  match stack st with
  | InObject fields None :: stk' =>
      complete (VObj (next st) (rev fields)) stk' (N.succ (next st))
  | _ => None
  end.

Definition value_step (st : pstate) (t : token) : option pstate :=
  match t with
  | TString s => complete (VStr s) (stack st) (next st)
  | TNumber a => complete (VNum (num_value a)) (stack st) (next st)
  | TTrue => complete (VBool true) (stack st) (next st)
  | TFalse => complete (VBool false) (stack st) (next st)
  | TNull => complete VNull (stack st) (next st)
  | TLBracket =>
      Some {| stack := InArray [] :: stack st; mode := MArrayStart; next := next st |}
  | TLBrace =>
      Some {| stack := InObject [] None :: stack st; mode := MObjectStart;
              next := next st |}
  | _ => None
  end.

Definition key_step (st : pstate) (t : token) : option pstate :=
  match t, stack st with
  | TString k, InObject fields None :: stk' =>
      Some {| stack := InObject fields (Some k) :: stk'; mode := MColon;
              next := next st |}
  | _, _ => None
  end.

Definition parse_step (st : pstate) (t : token) : option pstate :=
  match mode st with
  | MValue => value_step st t
  | MArrayStart =>
      match t with
      | TRBracket => close_array st
      | _ => value_step st t
      end
  | MObjectStart =>
      match t with
      | TRBrace => close_object st
      | _ => key_step st t
      end
  | MKey => key_step st t
  | MColon =>
      match t with
      | TColon => Some {| stack := stack st; mode := MValue; next := next st |}
      | _ => None
      end
  | MAfter =>
      match t, stack st with
      | TComma, InArray _ :: _ =>
          Some {| stack := stack st; mode := MValue; next := next st |}
      | TComma, InObject _ _ :: _ =>
          Some {| stack := stack st; mode := MKey; next := next st |}
      | TRBracket, _ => close_array st
      | TRBrace, _ => close_object st
      | _, _ => None
      end
  | MDone _ => None
  end.

Fixpoint parse_tokens (st : pstate) (ts : list token) : option pstate :=
  match ts with
  | [] => Some st
  | t :: ts' =>
      match parse_step st t with
      | Some st' => parse_tokens st' ts'
      | None => None
      end
  end.

(** [parse s nx] is the value of the JSON text [s], its objects and
    arrays allocated from address [nx] on, with the next free
    address; [None] is a SyntaxError. *)
Definition parse (s : jsstring) (nx : loc) : option (value * loc) :=
  match lex LStart s with
  | Some ts =>
      match parse_tokens {| stack := []; mode := MValue; next := nx |} ts with
      | Some st =>
          match mode st with
          | MDone v => Some (v, next st)
          | _ => None
          end
      | None => None
      end
  | None => None
  end.

End JSON.

(** ** The client's state *)

(** The mirrored server state: [this.playerId], [this.roomId],
    [this.ownerId], [this.isHost]. *)
Record session := {
  playerId : value;
  roomId : value;
  ownerId : value;
  isHost : bool
}.

(** The state the constructor sets up. *)
Definition initial_session : session :=
  {| playerId := VNull; roomId := VNull; ownerId := VNull; isHost := false |}.

Inductive ready_state := CONNECTING | OPEN | CLOSING | CLOSED.

(** What was handed to [ws.send]: [SentText obj] is the text
    [JSON.stringify(obj)], [SentData buffer] the argument of
    [sendBinary] as it is.  The values of this model are finite trees
    of plain data -- no cycles, no BigInt, no [toJSON] methods -- and
    on these [JSON.stringify] does not throw. *)
Inductive sent :=
| SentText (obj : value)
| SentData (buffer : value).

(** The transport handle [this.ws] refers to. *)
Record websocket := {
  readyState : ready_state;
  outbox : list sent
}.

Inductive exn :=
| TypeError
| RangeError
| SyntaxError
| Thrown (v : value).

Inductive completion (A : Type) :=
| Normal (a : A)
| Throw (e : exn).
Arguments Normal {A} a.
Arguments Throw {A} e.

(** What an observer of the client sees, in order: a call of [emit]
    with the session as it is at that moment, the invocation of the
    [i]-th callback registered for an event, a [console.warn]. *)
Inductive obs :=
| Emitted (event : jsstring) (args : list value) (s : session)
| Called (event : jsstring) (i : nat)
| Warned (msg : jsstring).

(** What the frame [evt.data] of a message event holds: a string, or,
    the socket's [binaryType] being [arraybuffer], an ArrayBuffer. *)
Inductive data :=
| Text (s : jsstring)
| Binary (bytes : list byte).

(** The notifications of the transport, each handled by the function
    [connect] installs for it. *)
Inductive notification :=
| Open
| Close
| Error
| Message (evt : data).

(** ** The session as a state machine

    What a text message whose JSON value is [d] does to the session,
    read off the cases of [_handleMessage]; [handle_text_session] below
    proves that the handler computes exactly this. *)

Definition is_type (d : value) (label : string) : bool :=
  strict_eq (field d "type") (VStr (js label)).

Definition step_session (s : session) (d : value) : session :=
  if is_type d "assignId" then
    {| playerId := field d "playerId"; roomId := roomId s;
       ownerId := ownerId s; isHost := isHost s |}
  else if is_type d "roomCreated" then
    {| playerId := playerId s; roomId := field d "roomId";
       ownerId := field d "playerId"; isHost := true |}
  else if is_type d "roomJoined" then
    {| playerId := playerId s; roomId := field d "roomId";
       ownerId := field d "ownerId"; isHost := false |}
  else if is_type d "leftRoom" then
    {| playerId := playerId s; roomId := VNull; ownerId := VNull; isHost := false |}
  else if is_type d "makeHost" then
    {| playerId := playerId s; roomId := roomId s;
       ownerId := playerId s; isHost := true |}
  else if is_type d "reassignedHost" then
    {| playerId := playerId s; roomId := roomId s;
       ownerId := field d "newHostId";
       isHost := strict_eq (playerId s) (field d "newHostId") |}
  else s.

(** The sixteen discriminators [_handleMessage] knows. *)
Definition recognized : list string :=
  [ "assignId"; "roomCreated"; "roomJoined"; "playerJoined"; "leftRoom";
    "makeHost"; "reassignedHost"; "playerLeft"; "relay"; "tellOwner";
    "tellPlayer"; "roomList"; "roomUpdated"; "roomTagAdded"; "roomTagRemoved";
    "error" ]%string.

(** *** Host and owner *)

(** The equation [isHost == (ownerId == playerId)]. *)
Definition host_equation (s : session) : Prop :=
  isHost s = strict_eq (ownerId s) (playerId s).

(** [isHost] holds exactly when the room has an owner and the owner is
    this client. *)
Definition host_invariant (s : session) : Prop :=
  isHost s = negb (is_null (ownerId s)) && strict_eq (ownerId s) (playerId s).

(** A message that agrees with the session [s] it arrives in on who the
    host is:
    - [assignId] arrives while no owner is recorded;
    - [roomCreated] names this client, by a non-null id, as the creator;
    - [roomJoined] names an owner other than this client, or none;
    - [makeHost] arrives when this client has an id;
    - [reassignedHost] does not name [null] as the new host of a client
      whose own id is [null]. *)
Definition host_consistent (s : session) (d : value) : bool :=
  (if is_type d "assignId" then is_null (ownerId s) else true)
  && (if is_type d "roomCreated"
      then negb (is_null (field d "playerId"))
           && strict_eq (field d "playerId") (playerId s)
      else true)
  && (if is_type d "roomJoined"
      then is_null (field d "ownerId")
           || negb (strict_eq (field d "ownerId") (playerId s))
      else true)
  && (if is_type d "makeHost" then negb (is_null (playerId s)) else true)
  && (if is_type d "reassignedHost"
      then negb (is_null (field d "newHostId")) || negb (is_null (playerId s))
      else true).

(** *** Room and owner *)

(** [roomId != null] implies [ownerId != null]; the owner is then not
    [undefined] either. *)
Definition room_invariant (s : session) : Prop :=
  roomId s <> VNull -> is_nullish (ownerId s) = false.

(** A message that tells the client, in session [s], who owns the room
    it puts or leaves the client in:
    - [roomCreated] with a room carries the creator's id;
    - [roomJoined] with a room carries the owner's id;
    - [makeHost] arrives, when the client is in a room, after the client
      got its id;
    - [reassignedHost] carries, when the client is in a room, the new
      host's id. *)
Definition owner_known (s : session) (d : value) : bool :=
  (if is_type d "roomCreated"
   then is_null (field d "roomId") || negb (is_nullish (field d "playerId"))
   else true)
  && (if is_type d "roomJoined"
      then is_null (field d "roomId") || negb (is_nullish (field d "ownerId"))
      else true)
  && (if is_type d "makeHost"
      then is_null (roomId s) || negb (is_nullish (playerId s))
      else true)
  && (if is_type d "reassignedHost"
      then is_null (roomId s) || negb (is_nullish (field d "newHostId"))
      else true).

(** *** Binary frames on the wire *)

Definition byte_of_N (n : N) : byte :=
  match Byte.of_N (n mod 256) with
  | Some b => b
  | None => x00
  end.

(** The four bytes of an unsigned 32-bit integer, most significant first. *)
Definition uint32_be (n : N) : list byte :=
  [ byte_of_N (n / 16777216); byte_of_N (n / 65536); byte_of_N (n / 256);
    byte_of_N n ]%N.

(** The binary frame of sender [senderId] and payload [payload]. *)
Definition binary_frame (senderId : N) (payload : list byte) : list byte :=
  uint32_be senderId ++ payload.

(** *** Values that equal themselves

    Strict equality is reflexive except at NaN; the parser never
    produces NaN, which the invariant [pstate_ok] of its states carries. *)

Definition reflexive (v : value) : Prop := strict_eq v v = true.

Definition reflexive_fields (v : value) : Prop :=
  match v with
  | VObj _ fields => Forall (fun kv => reflexive (snd kv)) fields
  | _ => True
  end.

Definition frame_ok (f : JSON.pframe) : Prop :=
  match f with
  | JSON.InArray _ => True
  | JSON.InObject fields _ => Forall (fun kv => reflexive (snd kv)) fields
  end.

Definition pstate_ok (st : JSON.pstate) : Prop :=
  Forall frame_ok (JSON.stack st) /\
  match JSON.mode st with
  | JSON.MDone v => reflexive_fields v
  | _ => True
  end.

Section Client.

(** The application's own state, which the callbacks read and write. *)
Variable App : Type.

(** A callback registered with [on]: it sees the session and the
    arguments, acts on the application's state, and returns or
    throws.  Callbacks do not call back into the client. *)
Definition callback := session -> list value -> App -> completion unit * App.

Record world := {
  url : jsstring;
  gameName : jsstring;
  ws : option websocket;
  sess : session;
  listeners : gmap jsstring (list callback);
  app : App;
  next_loc : loc;
  trace : list obs
}.

(** [new NetClient(url, gameName = "defaultGame")], in an environment
    whose application state is [a] and whose next free heap address is
    [nx]; [None] is the omitted game name. *)
Definition constructor (url : jsstring) (gameName : option jsstring) (a : App) (nx : loc)
  : world :=
  {| url := url;
     gameName := match gameName with Some g => g | None => js "defaultGame" end;
     ws := None; sess := initial_session;
     listeners := ∅; app := a; next_loc := nx; trace := [] |}.

Definition set_ws (x : option websocket) (w : world) : world :=
  {| url := url w; gameName := gameName w; ws := x; sess := sess w;
     listeners := listeners w; app := app w; next_loc := next_loc w;
     trace := trace w |}.

Definition set_sess (x : session) (w : world) : world :=
  {| url := url w; gameName := gameName w; ws := ws w; sess := x;
     listeners := listeners w; app := app w; next_loc := next_loc w;
     trace := trace w |}.

Definition set_listeners (x : gmap jsstring (list callback)) (w : world) : world :=
  {| url := url w; gameName := gameName w; ws := ws w; sess := sess w;
     listeners := x; app := app w; next_loc := next_loc w;
     trace := trace w |}.

Definition set_app (x : App) (w : world) : world :=
  {| url := url w; gameName := gameName w; ws := ws w; sess := sess w;
     listeners := listeners w; app := x; next_loc := next_loc w;
     trace := trace w |}.

Definition set_next_loc (x : loc) (w : world) : world :=
  {| url := url w; gameName := gameName w; ws := ws w; sess := sess w;
     listeners := listeners w; app := app w; next_loc := x;
     trace := trace w |}.

Definition observe (o : obs) (w : world) : world :=
  {| url := url w; gameName := gameName w; ws := ws w; sess := sess w;
     listeners := listeners w; app := app w; next_loc := next_loc w;
     trace := trace w ++ [o] |}.

(** *** Computations: state, and completion by return or throw *)

Definition M (A : Type) := world -> completion A * world.

Definition ret {A} (a : A) : M A := fun w => (Normal a, w).

Definition throw {A} (e : exn) : M A := fun w => (Throw e, w).

Definition bind {A B} (m : M A) (k : A -> M B) : M B :=
  fun w =>
    match m w with
    | (Normal a, w') => k a w'
    | (Throw e, w') => (Throw e, w')
    end.

(** [try { m } catch { h }] *)
Definition try_catch {A} (m : M A) (h : M A) : M A :=
  fun w =>
    match m w with
    | (Normal a, w') => (Normal a, w')
    | (Throw _, w') => h w'
    end.

Definition modify (f : world -> world) : M unit := fun w => (Normal tt, f w).

Notation "x <- m ;; k" := (bind m (fun x => k))
  (at level 100, m at next level, right associativity).
Notation "m ;; k" := (bind m (fun _ => k))
  (at level 100, right associativity).

Definition set_playerId (v : value) : M unit :=
  modify (fun w => set_sess {| playerId := v; roomId := roomId (sess w);
                               ownerId := ownerId (sess w);
                               isHost := isHost (sess w) |} w).

Definition set_roomId (v : value) : M unit :=
  modify (fun w => set_sess {| playerId := playerId (sess w); roomId := v;
                               ownerId := ownerId (sess w);
                               isHost := isHost (sess w) |} w).

Definition set_ownerId (v : value) : M unit :=
  modify (fun w => set_sess {| playerId := playerId (sess w);
                               roomId := roomId (sess w); ownerId := v;
                               isHost := isHost (sess w) |} w).

Definition set_isHost (b : bool) : M unit :=
  modify (fun w => set_sess {| playerId := playerId (sess w);
                               roomId := roomId (sess w);
                               ownerId := ownerId (sess w); isHost := b |} w).

(** [this.playerId] *)
Definition get_playerId : M value := fun w => (Normal (playerId (sess w)), w).

(** A fresh heap address. *)
Definition fresh : M loc :=
  fun w => (Normal (next_loc w), set_next_loc (N.succ (next_loc w)) w).

(** *** The platform *)

(** [o.k]; reading a property of [null] or [undefined] is a
    TypeError. *)
Definition prop (o : value) (k : string) : M value :=
  match o with
  | VNull | VUndefined => throw TypeError
  | _ => ret (field o k)
  end.

(** [JSON.parse(text)]: the parsed value, freshly allocated, or a
    SyntaxError. *)
Definition JSON_parse (text : jsstring) : M value :=
  fun w =>
    match JSON.parse text (next_loc w) with
    | Some (v, nx) => (Normal v, set_next_loc nx w)
    | None => (Throw SyntaxError, w)
    end.

(** [new DataView(buffer).getUint32(0)]: the first four bytes as a
    big-endian unsigned integer; a RangeError when the buffer holds
    fewer than four bytes. *)
Definition getUint32 (buffer : list byte) : M Num.number :=
  match buffer with
  | b0 :: b1 :: b2 :: b3 :: _ =>
      ret (Num.of_Z (Z.of_N (((Byte.to_N b0 * 256 + Byte.to_N b1) * 256
                               + Byte.to_N b2) * 256 + Byte.to_N b3)))
  | _ => throw RangeError
  end.

(** [buffer.slice(begin)]: a new ArrayBuffer holding the bytes from
    [begin] on (none if the buffer is shorter). *)
Definition slice (buffer : list byte) (begin : nat) : M value :=
  l <- fresh ;;
  ret (VBuf l (drop begin buffer)).

(** An object literal and an array literal. *)
Definition new_object (fields : list (string * value)) : M value :=
  l <- fresh ;;
  ret (VObj l (map (fun kv => (js (fst kv), snd kv)) fields)).

Definition new_array (elems : list value) : M value :=
  l <- fresh ;;
  ret (VArr l elems).

(** The spread [...v] in an array literal: the values [v] yields, or a
    TypeError when [v] is not iterable. *)
Definition spread (v : value) : M (list value) :=
  match iterate v with
  | Some elems => ret elems
  | None => throw TypeError
  end.

(** [l.forEach(f)], [f] receiving the element and its index; a throw
    ends the iteration and leaves [forEach]. *)
Fixpoint forEach {A} (l : list A) (i : nat) (f : nat -> A -> M unit) : M unit :=
  match l with
  | [] => ret tt
  | x :: l' => f i x ;; forEach l' (S i) f
  end.

(** The names every object inherits from [Object.prototype]. *)
Definition object_prototype : list string :=
  [ "constructor"; "hasOwnProperty"; "isPrototypeOf"; "propertyIsEnumerable";
    "toLocaleString"; "toString"; "valueOf"; "__proto__";
    "__defineGetter__"; "__defineSetter__"; "__lookupGetter__";
    "__lookupSetter__" ]%string.

Definition inherited (k : jsstring) : bool :=
  bool_decide (k ∈ map js object_prototype).

(** [switch (d) { case label: body; break; ... }] *)
Definition switch (d : value) (cases : list (string * M unit)) : M unit :=
  match find (fun c => strict_eq d (VStr (js (fst c)))) cases with
  | Some c => snd c
  | None => ret tt
  end.

(** *** Event API *)

(** [on(event, callback)].  [this.listeners] is a plain object: for
    an inherited name [this.listeners[event]] is the inherited member,
    which is truthy and has no [push]. *)
Definition on (event : jsstring) (cb : callback) : M unit :=
  if inherited event then throw TypeError
  else
    modify (fun w => match listeners w !! event with
                     | None => set_listeners (<[event := []]> (listeners w)) w
                     | Some _ => w
                     end) ;;
    modify (fun w => match listeners w !! event with
                     | Some cbs => set_listeners (<[event := cbs ++ [cb]]> (listeners w)) w
                     | None => w
                     end).

(** The call [cb(...args)] of the [i]-th callback of [event]. *)
Definition invoke (event : jsstring) (args : list value) (i : nat) (cb : callback)
  : M unit :=
  fun w =>
    let w1 := observe (Called event i) w in
    let (r, a) := cb (sess w1) args (app w1) in
    (r, set_app a w1).

(** [emit(event, ...args)] *)
Definition emit (event : jsstring) (args : list value) : M unit :=
  modify (fun w => observe (Emitted event args (sess w)) w) ;;
  if inherited event then throw TypeError
  else
    cbs <- (fun w => (Normal (listeners w !! event), w)) ;;
    match cbs with
    | Some cbs => forEach cbs 0%nat (invoke event args)
    | None => ret tt
    end.

(** *** Connection API *)

(** [ws.onopen] *)
Definition onopen : M unit := emit (js "connected") [].

(** [ws.onclose] *)
Definition onclose : M unit :=
  set_playerId VNull ;;
  set_roomId VNull ;;
  set_ownerId VNull ;;
  set_isHost false ;;
  emit (js "disconnected") [].

(** [ws.onerror] *)
Definition onerror : M unit :=
  modify (observe (Warned (js "WebSocket error"))).

(** [connect()]: a new socket, not yet open. *)
Definition connect : M unit :=
  modify (set_ws (Some {| readyState := CONNECTING; outbox := [] |})).

(** [disconnect()]: the handle is dropped at once. *)
Definition disconnect : M unit :=
  modify (set_ws None).

(** *** Sending *)

Definition is_open (w : world) : bool :=
  match ws w with
  | Some {| readyState := OPEN |} => true
  | _ => false
  end.

(** [ws.send] on an open socket. *)
Definition ws_send (x : sent) (w : world) : world :=
  match ws w with
  | Some sock =>
      set_ws (Some {| readyState := readyState sock;
                      outbox := outbox sock ++ [x] |}) w
  | None => w
  end.

(** [_send(obj)] *)
Definition _send (obj : value) : M unit :=
  fun w =>
    if negb (is_open w) then (Normal tt, w)
    else (Normal tt, ws_send (SentText obj) w).

(** [sendBinary(buffer)] *)
Definition sendBinary (buffer : value) : M unit :=
  fun w =>
    if negb (is_open w) then (Normal tt, w)
    else (Normal tt, ws_send (SentData buffer) w).

(** *** Room API *)

(** A parameter with a default value: [undefined] selects the default. *)
Definition or_default (v d : value) : value :=
  match v with VUndefined => d | _ => v end.

(** [`game:${this.gameName}`] *)
Definition game_tag : M value :=
  fun w => (Normal (VStr (js "game:" ++ gameName w)), w).

(** [createRoom(tags = [], maxClients = 8, isPrivate = false, metaData = {})].
    The arguments are any values; an omitted one is [undefined].  The
    message object is built, [tags] being spread into its array, before
    [_send] is called. *)
Definition createRoom (tags maxClients isPrivate metaData : value) : M unit :=
  tags <- match tags with
          | VUndefined => new_array []
          | _ => ret tags
          end ;;
  let maxClients := or_default maxClients (VNum (Num.of_Z 8)) in
  let isPrivate := or_default isPrivate (VBool false) in
  metaData <- match metaData with
              | VUndefined => new_object []
              | _ => ret metaData
              end ;;
  elems <- spread tags ;;
  g <- game_tag ;;
  all <- new_array (elems ++ [g]
                    ++ (if truthy isPrivate then [VStr (js "private")] else [])) ;;
  obj <- new_object [ ("type", VStr (js "createRoom")); ("tags", all);
                      ("maxClients", maxClients); ("metaData", metaData) ]%string ;;
  _send obj.

Definition joinRoom (roomId : value) : M unit :=
  obj <- new_object [ ("type", VStr (js "joinRoom")); ("roomId", roomId) ]%string ;;
  _send obj.

Definition leaveRoom : M unit :=
  obj <- new_object [ ("type", VStr (js "leaveRoom")) ]%string ;;
  _send obj.

(** [listRooms(tags = [])] *)
Definition listRooms (tags : value) : M unit :=
  tags <- match tags with
          | VUndefined => new_array []
          | _ => ret tags
          end ;;
  elems <- spread tags ;;
  g <- game_tag ;;
  all <- new_array (elems ++ [g]) ;;
  obj <- new_object [ ("type", VStr (js "listRooms")); ("tags", all) ]%string ;;
  _send obj.

(** *** Host-only room settings API *)

Definition updateMeta (metaData : value) : M unit :=
  obj <- new_object [ ("type", VStr (js "updateMeta")); ("metaData", metaData) ]%string ;;
  _send obj.

Definition addTag (tag : value) : M unit :=
  obj <- new_object [ ("type", VStr (js "setRoomTag")); ("tag", tag) ]%string ;;
  _send obj.

Definition removeTag (tag : value) : M unit :=
  obj <- new_object [ ("type", VStr (js "clearRoomTag")); ("tag", tag) ]%string ;;
  _send obj.

(** *** Messaging API *)

Definition sendRelay (payload : value) : M unit :=
  obj <- new_object [ ("type", VStr (js "relay")); ("payload", payload) ]%string ;;
  _send obj.

Definition tellOwner (payload : value) : M unit :=
  obj <- new_object [ ("type", VStr (js "tellOwner")); ("payload", payload) ]%string ;;
  _send obj.

Definition tellPlayer (playerId payload : value) : M unit :=
  obj <- new_object [ ("type", VStr (js "tellPlayer")); ("playerId", playerId);
                      ("payload", payload) ]%string ;;
  _send obj.

(** *** Internal message handling *)

(** The cases of the [switch] on [data.type]. *)
Definition cases (data : value) : list (string * M unit) :=
  [ ("assignId",
      v <- prop data "playerId" ;;
      set_playerId v ;;
      a <- prop data "playerId" ;;
      emit (js "assignedId") [a]);
    ("roomCreated",
      r <- prop data "roomId" ;;
      set_roomId r ;;
      p <- prop data "playerId" ;;
      set_ownerId p ;;
      set_isHost true ;;
      a1 <- prop data "roomId" ;;
      a2 <- prop data "playerId" ;;
      a3 <- prop data "metaData" ;;
      emit (js "roomCreated") [a1; a2; a3]);
    ("roomJoined",
      r <- prop data "roomId" ;;
      set_roomId r ;;
      o <- prop data "ownerId" ;;
      set_ownerId o ;;
      set_isHost false ;;
      a1 <- prop data "roomId" ;;
      a2 <- prop data "playerId" ;;
      a3 <- prop data "ownerId" ;;
      a4 <- prop data "maxClients" ;;
      a5 <- prop data "metaData" ;;
      emit (js "roomJoined") [a1; a2; a3; a4; a5]);
    ("playerJoined",
      a <- prop data "playerId" ;;
      emit (js "playerJoined") [a]);
    ("leftRoom",
      set_roomId VNull ;;
      set_ownerId VNull ;;
      set_isHost false ;;
      a <- prop data "roomId" ;;
      emit (js "leftRoom") [a]);
    ("makeHost",
      set_isHost true ;;
      p <- get_playerId ;;
      set_ownerId p ;;
      a <- prop data "oldHostId" ;;
      emit (js "makeHost") [a]);
    ("reassignedHost",
      n <- prop data "newHostId" ;;
      set_ownerId n ;;
      p <- get_playerId ;;
      n' <- prop data "newHostId" ;;
      set_isHost (strict_eq p n') ;;
      a1 <- prop data "newHostId" ;;
      a2 <- prop data "oldHostId" ;;
      emit (js "reassignedHost") [a1; a2]);
    ("playerLeft",
      a <- prop data "playerId" ;;
      emit (js "playerLeft") [a]);
    ("relay",
      a1 <- prop data "from" ;;
      a2 <- prop data "payload" ;;
      emit (js "relay") [a1; a2]);
    ("tellOwner",
      a1 <- prop data "from" ;;
      a2 <- prop data "payload" ;;
      emit (js "tellOwner") [a1; a2]);
    ("tellPlayer",
      a1 <- prop data "from" ;;
      a2 <- prop data "payload" ;;
      emit (js "tellPlayer") [a1; a2]);
    ("roomList",
      a <- prop data "rooms" ;;
      emit (js "roomList") [a]);
    ("roomUpdated",
      a <- prop data "metaData" ;;
      emit (js "roomUpdated") [a]);
    ("roomTagAdded",
      a1 <- prop data "tag" ;;
      a2 <- prop data "tags" ;;
      emit (js "roomTagAdded") [a1; a2]);
    ("roomTagRemoved",
      a1 <- prop data "tag" ;;
      a2 <- prop data "tags" ;;
      emit (js "roomTagRemoved") [a1; a2]);
    ("error",
      a <- prop data "message" ;;
      emit (js "error") [a]) ]%string.

(** [_handleMessage(evt)] *)
Definition _handleMessage (evt : data) : M unit :=
  match evt with
  | Binary buffer =>
      fromId <- getUint32 buffer ;;
      payload <- slice buffer 4 ;;
      emit (js "binary") [VNum fromId; payload]
  | Text text =>
      parsed <- try_catch (v <- JSON_parse text ;; ret (Some v)) (ret None) ;;
      match parsed with
      | None => ret tt
      | Some data =>
          t <- prop data "type" ;;
          switch t (cases data)
      end
  end.

(** *** The client in its environment *)

(** The handler of a transport notification. *)
Definition handler (n : notification) : M unit :=
  match n with
  | Open => onopen
  | Close => onclose
  | Error => onerror
  | Message evt => _handleMessage evt
  end.

(** A socket delivers a notification -- the socket [this.ws] refers
    to or one that [disconnect] or a later [connect] has dropped, whose
    handlers stay installed: the handler runs to its end or to an
    uncaught throw; either way the client lives on in the state the
    handler left.  The [readyState] of a socket is the transport's to
    change, not the handlers'. *)
Definition deliver (w : world) (n : notification) : world :=
  snd (handler n w).

(** The states the client passes through as the notifications [ns]
    arrive one after the other. *)
Fixpoint states (w : world) (ns : list notification) : list world :=
  match ns with
  | [] => []
  | n :: ns' => deliver w n :: states (deliver w n) ns'
  end.

Definition run (w : world) (ns : list notification) : world :=
  fold_left deliver ns w.

(** The calls of the outbound API. *)
Inductive api_call :=
| CreateRoom (tags maxClients isPrivate metaData : value)
| JoinRoom (roomId : value)
| LeaveRoom
| ListRooms (tags : value)
| UpdateMeta (metaData : value)
| AddTag (tag : value)
| RemoveTag (tag : value)
| SendRelay (payload : value)
| TellOwner (payload : value)
| TellPlayer (playerId payload : value)
| SendBinary (buffer : value).

Definition call (c : api_call) : M unit :=
  match c with
  | CreateRoom tags maxClients isPrivate metaData =>
      createRoom tags maxClients isPrivate metaData
  | JoinRoom roomId => joinRoom roomId
  | LeaveRoom => leaveRoom
  | ListRooms tags => listRooms tags
  | UpdateMeta metaData => updateMeta metaData
  | AddTag tag => addTag tag
  | RemoveTag tag => removeTag tag
  | SendRelay payload => sendRelay payload
  | TellOwner payload => tellOwner payload
  | TellPlayer playerId payload => tellPlayer playerId payload
  | SendBinary buffer => sendBinary buffer
  end.

(** *** Runs *)

(** The session after the notification [n] arrives in [w]. *)
Definition next_session (w : world) (n : notification) : session :=
  match n with
  | Close => initial_session
  | Message (Text text) =>
      match JSON.parse text (next_loc w) with
      | Some (d, _) => step_session (sess w) d
      | None => sess w
      end
  | _ => sess w
  end.

(** The notification [n], arriving in [w], is a message the predicate
    [ok] accepts, or no message with a JSON value at all. *)
Definition message_ok (ok : session -> value -> bool) (w : world) (n : notification)
  : bool :=
  match n with
  | Message (Text text) =>
      match JSON.parse text (next_loc w) with
      | Some (d, _) => ok (sess w) d
      | None => true
      end
  | _ => true
  end.

(** Every notification of [ns] is accepted in the state it arrives in. *)
Fixpoint all_ok (ok : session -> value -> bool) (w : world) (ns : list notification)
  : bool :=
  match ns with
  | [] => true
  | n :: ns' => message_ok ok w n && all_ok ok (deliver w n) ns'
  end.

(** [w'] differs from [w] at most in the application's state and in
    the trace. *)
Definition same_client (w w' : world) : Prop :=
  url w' = url w /\ gameName w' = gameName w /\ ws w' = ws w /\
  sess w' = sess w /\ listeners w' = listeners w /\ next_loc w' = next_loc w.

(** [w'] differs from [w] at most in the next free heap address. *)
Definition same_but_heap (w w' : world) : Prop :=
  url w' = url w /\ gameName w' = gameName w /\ ws w' = ws w /\
  sess w' = sess w /\ listeners w' = listeners w /\ app w' = app w /\
  trace w' = trace w.

End Client.

Arguments constructor {App} url gameName a nx.
Arguments sess {App} w.
Arguments ws {App} w.
Arguments app {App} w.
Arguments trace {App} w.
Arguments listeners {App} w.
Arguments next_loc {App} w.
Arguments gameName {App} w.
Arguments url {App} w.
Arguments set_ws {App} x w.
Arguments set_sess {App} x w.
Arguments set_listeners {App} x w.
Arguments set_app {App} x w.
Arguments set_next_loc {App} x w.
Arguments observe {App} o w.
Arguments ret {App A} a w.
Arguments throw {App A} e w.
Arguments bind {App A B} m k w.
Arguments try_catch {App A} m h w.
Arguments modify {App} f w.
Arguments prop {App} o k w.
Arguments JSON_parse {App} text w.
Arguments getUint32 {App} buffer w.
Arguments slice {App} buffer begin w.
Arguments forEach {App A} l i f w.
Arguments switch {App} d cases w.
Arguments on {App} event cb w.
Arguments invoke {App} event args i cb w.
Arguments emit {App} event args w.
Arguments onopen {App} w.
Arguments onclose {App} w.
Arguments onerror {App} w.
Arguments connect {App} w.
Arguments disconnect {App} w.
Arguments is_open {App} w.
Arguments ws_send {App} x w.
Arguments _send {App} obj w.
Arguments sendBinary {App} buffer w.
Arguments spread {App} v w.
Arguments cases {App} data.
Arguments _handleMessage {App} evt w.
Arguments handler {App} n w.
Arguments deliver {App} w n.
Arguments states {App} w ns.
Arguments run {App} w ns.
Arguments call {App} c w.
Arguments next_session {App} w n.
Arguments message_ok {App} ok w n.
Arguments all_ok {App} ok w ns.
Arguments same_client {App} w w'.
Arguments same_but_heap {App} w w'.

(** ** Concrete clients and messages for the examples *)

(** A newly constructed client whose application has no state. *)
Definition fresh_client : world unit :=
  constructor (js "wss://gamebackend-dk2p.onrender.com") None tt 0%N.

(** Callbacks over an application that keeps a list of numbers: one
    that writes down its number, one that throws. *)
Definition note (i : nat) : callback (list nat) :=
  fun _ _ a => (Normal tt, a ++ [i]).

Definition thrower : callback (list nat) :=
  fun _ _ a => (Throw (Thrown (VStr (js "boom"))), a).

(** A callback that throws once the application has written something
    down, and returns while it has not. *)
Definition picky : callback (list nat) :=
  fun _ _ a =>
    match a with
    | [] => (Normal tt, a)
    | _ :: _ => (Throw (Thrown (VStr (js "taken"))), a)
    end.

(** A client on which [picky], [note 0], [picky] and [note 2] were
    registered, in this order, for the event [evt]. *)
Definition picky_client : world (list nat) :=
  snd (on (js "evt") (note 2)
    (snd (on (js "evt") picky
      (snd (on (js "evt") (note 0)
        (snd (on (js "evt") picky
          (constructor (js "wss://gamebackend-dk2p.onrender.com") (Some (js "arena"))
                       [] 0%N)))))))).

(** A client on which [note 0], [thrower] and [note 2] were registered,
    in this order, for the event [evt]. *)
Definition noting_client : world (list nat) :=
  snd (on (js "evt") (note 2)
    (snd (on (js "evt") thrower
      (snd (on (js "evt") (note 0)
        (constructor (js "wss://gamebackend-dk2p.onrender.com") (Some (js "arena"))
                     [] 0%N)))))).

(** The scenario of the specification: the client gets id 7, creates
    room R1, hands the room over to player 9; then the connection
    closes. *)
Definition scenario : list notification :=
  [ Message (Text (jq "{'type':'assignId','playerId':7}"));
    Message (Text (jq "{'type':'roomCreated','roomId':'R1','playerId':7,'metaData':{}}"));
    Message (Text (jq "{'type':'reassignedHost','newHostId':9,'oldHostId':7}"));
    Close ].

(** ** Tables read off the code, for the properties below *)

(** For each message type, the event [_handleMessage] emits and the
    properties of the message it passes as the event's arguments. *)
Definition dispatch : list (string * (string * list string)) :=
  [ ("assignId", ("assignedId", ["playerId"]));
    ("roomCreated", ("roomCreated", ["roomId"; "playerId"; "metaData"]));
    ("roomJoined",
      ("roomJoined", ["roomId"; "playerId"; "ownerId"; "maxClients"; "metaData"]));
    ("playerJoined", ("playerJoined", ["playerId"]));
    ("leftRoom", ("leftRoom", ["roomId"]));
    ("makeHost", ("makeHost", ["oldHostId"]));
    ("reassignedHost", ("reassignedHost", ["newHostId"; "oldHostId"]));
    ("playerLeft", ("playerLeft", ["playerId"]));
    ("relay", ("relay", ["from"; "payload"]));
    ("tellOwner", ("tellOwner", ["from"; "payload"]));
    ("tellPlayer", ("tellPlayer", ["from"; "payload"]));
    ("roomList", ("roomList", ["rooms"]));
    ("roomUpdated", ("roomUpdated", ["metaData"]));
    ("roomTagAdded", ("roomTagAdded", ["tag"; "tags"]));
    ("roomTagRemoved", ("roomTagRemoved", ["tag"; "tags"]));
    ("error", ("error", ["message"])) ]%string.

(** The message types whose case writes a session field. *)
Definition mutating : list string :=
  [ "assignId"; "roomCreated"; "roomJoined"; "leftRoom"; "makeHost";
    "reassignedHost" ]%string.

(** The [type] each call of the JSON API puts on the wire. *)
Definition wire_type (c : api_call) : option string :=
  match c with
  | CreateRoom _ _ _ _ => Some "createRoom"
  | JoinRoom _ => Some "joinRoom"
  | LeaveRoom => Some "leaveRoom"
  | ListRooms _ => Some "listRooms"
  | UpdateMeta _ => Some "updateMeta"
  | AddTag _ => Some "setRoomTag"
  | RemoveTag _ => Some "clearRoomTag"
  | SendRelay _ => Some "relay"
  | TellOwner _ => Some "tellOwner"
  | TellPlayer _ _ => Some "tellPlayer"
  | SendBinary _ => None
  end%string.

(** The tags a [tags] argument stands for: none when it is omitted,
    what it yields when it is iterable; [None] when it is neither. *)
Definition tag_list (tags : value) : option (list value) :=
  match tags with
  | VUndefined => Some []
  | _ => iterate tags
  end.

(** The call's [tags] argument, if it has one, is omitted or iterable. *)
Definition spreadable (c : api_call) : bool :=
  match c with
  | CreateRoom tags _ _ _ | ListRooms tags =>
      match tag_list tags with Some _ => true | None => false end
  | _ => true
  end.

(** The application state the callbacks [cbs], run one after the other
    from the state [a] with the session [s] and the arguments [args],
    leave when each of them returns; [None] when one of them throws. *)
Fixpoint after_all {App} (s : session) (args : list value)
    (cbs : list (callback App)) (a : App) : option App :=
  match cbs with
  | [] => Some a
  | c :: cbs' =>
      match c s args a with
      | (Normal _, a') => after_all s args cbs' a'
      | (Throw _, _) => None
      end
  end.

(** Every callback registered on [w] returns, whatever it is given. *)
Definition quiet {App} (w : world App) : Prop :=
  forall ev (cbs : list (callback App)) c s args a,
    listeners w !! ev = Some cbs -> In c cbs -> fst (c s args a) = Normal tt.

(** The callbacks registered on [w] for [ev]. *)
Definition subscribers {App} (w : world App) (ev : jsstring) : list (callback App) :=
  match listeners w !! ev with
  | Some cbs => cbs
  | None => []
  end.

(** The sender id in the first four bytes of a buffer. *)
Definition sender_of (b0 b1 b2 b3 : byte) : N :=
  (((Byte.to_N b0 * 256 + Byte.to_N b1) * 256 + Byte.to_N b2) * 256 + Byte.to_N b3)%N.

(** The events the client emits of its own accord. *)
Definition vocabulary : list string :=
  ("connected" :: "disconnected" :: "binary" :: map (fun x => fst (snd x)) dispatch)%string.

(** The parser's value, once complete, is not [undefined]. *)
Definition pstate_defined (st : JSON.pstate) : Prop :=
  JSON.mode st <> JSON.MDone VUndefined.

(** A client whose socket the transport has opened. *)
Definition open_client : world unit :=
  set_ws (Some {| readyState := OPEN; outbox := [] |}) (snd (connect fresh_client)).

(** A client on which [note 0] and [note 1] were registered for [evt]. *)
Definition polite_client : world (list nat) :=
  snd (on (js "evt") (note 1)
    (snd (on (js "evt") (note 0)
      (constructor (js "wss://gamebackend-dk2p.onrender.com") None [] 0%N)))).

(** A client on which [picky] and then [note 1] were registered for
    [evt]: [picky] would throw if it came after [note 1]. *)
Definition early_client : world (list nat) :=
  snd (on (js "evt") (note 1)
    (snd (on (js "evt") picky
      (constructor (js "wss://gamebackend-dk2p.onrender.com") None [] 0%N)))).

(** * Checks on concrete inputs *)

Example of_Z_7 : Num.of_Z 7 = S754_finite false 7881299347898368 (-50).
Proof. reflexivity. Qed.

Example of_decimal_tenth :
  Num.of_decimal false 1 (-1) = S754_finite false 7205759403792794 (-56).
Proof. vm_compute. reflexivity. Qed.

Example of_decimal_7 : Num.of_decimal false 70 (-1) = Num.of_Z 7.
Proof. vm_compute. reflexivity. Qed.

Example of_decimal_big :
  Num.of_decimal false 9007199254740993 0 = Num.of_Z 9007199254740992.
Proof. vm_compute. reflexivity. Qed.

Example of_decimal_huge : Num.of_decimal true 1 400 = S754_infinity true.
Proof. vm_compute. reflexivity. Qed.

Example of_decimal_tiny : Num.of_decimal false 5 (-324) = S754_finite false 1 (-1074).
Proof. vm_compute. reflexivity. Qed.

Example of_decimal_tiny0 : Num.of_decimal false 2 (-324) = S754_zero false.
Proof. vm_compute. reflexivity. Qed.

Example to_Z_max_uint32 : Num.to_Z (Num.of_Z 4294967295) = Some 4294967295.
Proof. reflexivity. Qed.

Example parse_null : JSON.parse (js "null") 0%N = Some (VNull, 0%N).
Proof. reflexivity. Qed.

Example parse_assignId :
  JSON.parse (jq "{'type':'assignId','playerId':7}") 5%N
  = Some (VObj 5%N [(js "type", VStr (js "assignId"));
                    (js "playerId", VNum (Num.of_Z 7))], 6%N).
Proof. vm_compute. reflexivity. Qed.

Example parse_malformed : JSON.parse (js "{not json") 0%N = None.
Proof. reflexivity. Qed.

Example parse_nested :
  JSON.parse (jq " [ -0, 'a\u0041', {'k':[]} ,2.5e1] ") 0%N
  = Some (VArr 2%N [VNum (S754_zero true); VStr (js "aA");
                    VObj 1%N [(js "k", VArr 0%N [])];
                    VNum (Num.of_Z 25)], 3%N).
Proof. vm_compute. reflexivity. Qed.

Example parse_trailing_comma : JSON.parse (js "[1,]") 0%N = None.
Proof. reflexivity. Qed.

Example parse_leading_zero : JSON.parse (js "01") 0%N = None.
Proof. reflexivity. Qed.

(** * Numbers *)

(** Rounding a non-negative mantissa never gives NaN. *)

Lemma shr_1_nonneg mrs : 0 <= shr_m mrs -> 0 <= shr_m (shr_1 mrs).
Proof.
  destruct mrs as [m r s]. simpl. intros H.
  destruct m as [|p|p]; [simpl; lia | | lia].
  destruct p; simpl; lia.
Qed.

Lemma iter_pos_shr_1_nonneg n : forall mrs,
  0 <= shr_m mrs -> 0 <= shr_m (SpecFloat.iter_pos shr_1 n mrs).
Proof.
  induction n as [n IH|n IH|]; intros mrs H; simpl.
  - apply IH, IH, shr_1_nonneg, H.
  - apply IH, IH, H.
  - apply shr_1_nonneg, H.
Qed.

Lemma shr_fexp_nonneg prec emax m e l :
  0 <= m -> 0 <= shr_m (fst (shr_fexp prec emax m e l)).
Proof.
  intros H. unfold shr_fexp, shr.
  assert (H0 : 0 <= shr_m (shr_record_of_loc m l)).
  { destruct l as [|[]]; simpl; exact H. }
  destruct (fexp prec emax (Zdigits2 m + e) - e); simpl; auto.
  apply iter_pos_shr_1_nonneg, H0.
Qed.

Lemma round_nearest_even_nonneg m l : 0 <= m -> 0 <= round_nearest_even m l.
Proof.
  intros H. destruct l as [|[]]; simpl; try lia.
  destruct (Z.even m); lia.
Qed.

Lemma binary_round_aux_not_nan prec emax s m e l :
  0 <= m -> Num.is_nan (binary_round_aux prec emax s m e l) = false.
Proof.
  intros H. unfold binary_round_aux.
  pose proof (shr_fexp_nonneg prec emax m e l H) as H1.
  destruct (shr_fexp prec emax m e l) as [mrs' e']. simpl in H1.
  pose proof (shr_fexp_nonneg prec emax _ e' loc_Exact
                (round_nearest_even_nonneg _ (loc_of_shr_record mrs') H1)) as H2.
  destruct (shr_fexp prec emax _ e' loc_Exact) as [mrs'' e'']. simpl in H2.
  destruct (shr_m mrs'') as [|p|p]; [reflexivity | | lia].
  destruct (e'' <=? emax - prec); reflexivity.
Qed.

Lemma binary_round_not_nan prec emax s m e :
  Num.is_nan (binary_round prec emax s m e) = false.
Proof.
  unfold binary_round.
  destruct (shl_align m e _) as [mz ez].
  apply binary_round_aux_not_nan. lia.
Qed.

Lemma SFdiv_core_nonneg prec emax m1 e1 m2 e2 :
  0 <= fst (fst (SFdiv_core_binary prec emax (Zpos m1) e1 (Zpos m2) e2)).
Proof.
  unfold SFdiv_core_binary.
  set (s := e1 - e2 - _).
  set (m' := match s with Z0 => _ | Zpos _ => _ | Zneg _ => _ end).
  assert (Hm' : 0 <= m').
  { subst m'. destruct s; try lia. apply Z.shiftl_nonneg. lia. }
  pose proof (Z.div_eucl_eq m' (Zpos m2) ltac:(lia)) as Heq.
  pose proof (Z.mod_pos_bound m' (Zpos m2) ltac:(lia)) as Hb.
  unfold Z.modulo in Hb.
  destruct (Z.div_eucl m' (Zpos m2)) as [q r]. simpl.
  nia.
Qed.

Lemma of_decimal_not_nan neg m e : Num.is_nan (Num.of_decimal neg m e) = false.
Proof.
  unfold Num.of_decimal. destruct m as [|p]; [reflexivity|].
  destruct e as [|k|k]; try apply binary_round_not_nan.
  unfold SFdiv.
  pose proof (SFdiv_core_nonneg Num.prec Num.emax p 0 (10 ^ k) 0) as H.
  destruct (SFdiv_core_binary _ _ _ _ _ _) as [[mz ez] lz]. simpl in H.
  apply binary_round_aux_not_nan, H.
Qed.

(** Strict equality on numbers is reflexive away from NaN, and
    symmetric. *)

Lemma eqb_refl x : Num.is_nan x = false -> Num.eqb x x = true.
Proof.
  unfold Num.eqb, SFeqb. destruct x as [s|s| |s m e]; simpl; try discriminate; intros _.
  - reflexivity.
  - destruct s; reflexivity.
  - destruct s; rewrite Z.compare_refl, Pos.compare_cont_refl; reflexivity.
Qed.

Lemma eqb_sym x y : Num.eqb x y = Num.eqb y x.
Proof.
  unfold Num.eqb, SFeqb.
  destruct x as [s|s| |s m e], y as [s'|s'| |s' m' e']; simpl; try reflexivity;
    try (destruct s; reflexivity); try (destruct s'; reflexivity);
    try (destruct s, s'; reflexivity).
  fold (Pos.compare m m'). fold (Pos.compare m' m).
  rewrite (Z.compare_antisym e e'), (Pos.compare_antisym m m').
  destruct s, s'; try reflexivity;
    destruct (e ?= e')%Z; simpl; try reflexivity;
    destruct (m ?= m')%positive; reflexivity.
Qed.

(** An integer below 2^53 is a number exactly, and is read back from
    it. *)

Lemma digits2_pos_iter_xO k p :
  digits2_pos (Pos.iter xO p k) = (digits2_pos p + k)%positive.
Proof.
  induction k as [|k IH] using Pos.peano_ind.
  - simpl. lia.
  - rewrite Pos.iter_succ. simpl. rewrite IH. lia.
Qed.

Lemma Zpos_iter_xO k p : Zpos (Pos.iter xO p k) = Zpos p * 2 ^ Zpos k.
Proof.
  induction k as [|k IH] using Pos.peano_ind.
  - simpl. lia.
  - rewrite Pos.iter_succ, Pos2Z.inj_succ, Z.pow_succ_r by lia.
    rewrite Pos2Z.inj_xO, IH. lia.
Qed.

Lemma digits2_pos_bound p : forall n, 0 <= n -> Zpos p < 2 ^ n -> Zpos (digits2_pos p) <= n.
Proof.
  induction p as [p IH|p IH|]; intros n Hn H.
  - assert (n <> 0) by (intros ->; simpl in H; lia).
    replace n with (Z.succ (n - 1)) in H by lia.
    rewrite Z.pow_succ_r in H by lia.
    specialize (IH (n - 1) ltac:(lia) ltac:(lia)). simpl. lia.
  - assert (n <> 0) by (intros ->; simpl in H; lia).
    replace n with (Z.succ (n - 1)) in H by lia.
    rewrite Z.pow_succ_r in H by lia.
    specialize (IH (n - 1) ltac:(lia) ltac:(lia)). simpl. lia.
  - assert (n <> 0) by (intros ->; simpl in H; lia). simpl. lia.
Qed.

Lemma of_Z_pos p :
  Zpos (digits2_pos p) < 53 ->
  Num.of_Z (Zpos p)
  = S754_finite false (Pos.iter xO p (Z.to_pos (53 - Zpos (digits2_pos p))))
                      (Zpos (digits2_pos p) - 53).
Proof.
  intros Hd. unfold Num.of_Z, binary_normalize, binary_round.
  set (d := digits2_pos p) in *.
  assert (Hf : forall x, 0 <= x -> fexp Num.prec Num.emax (x + (Zpos d - 53)) = x + Zpos d - 106).
  { intros x Hx. unfold fexp, emin, Num.prec, Num.emax. lia. }
  replace (fexp Num.prec Num.emax (Zpos d + 0)) with (Zpos d - 53)
    by (unfold fexp, emin, Num.prec, Num.emax; lia).
  unfold shl_align.
  destruct (Zpos d - 53 - 0) as [|q|q] eqn:E; try lia.
  replace (Z.to_pos (53 - Zpos d)) with q by lia.
  assert (Hs : shr_fexp Num.prec Num.emax (Zpos (Pos.iter xO p q)) (Zpos d - 53) loc_Exact
               = ({| shr_m := Zpos (Pos.iter xO p q); shr_r := false; shr_s := false |},
                  Zpos d - 53)).
  { unfold shr_fexp. simpl Zdigits2. rewrite digits2_pos_iter_xO. fold d.
    rewrite Hf by lia.
    replace (Zpos (d + q) + Zpos d - 106 - (Zpos d - 53)) with 0 by lia.
    reflexivity. }
  unfold binary_round_aux. rewrite Hs. cbn [shr_m loc_of_shr_record round_nearest_even].
  rewrite Hs. cbn [shr_m].
  replace (Zpos d - 53 <=? Num.emax - Num.prec) with true; [reflexivity|].
  symmetry. apply Z.leb_le. unfold Num.emax, Num.prec. lia.
Qed.

Lemma to_Z_of_Z z : 0 <= z < 2 ^ 32 -> Num.to_Z (Num.of_Z z) = Some z.
Proof.
  intros [H0 H1]. destruct z as [|p|p]; [reflexivity | | lia].
  pose proof (digits2_pos_bound p 32 ltac:(lia) H1) as Hd.
  rewrite of_Z_pos by lia. unfold Num.to_Z.
  destruct (Zpos (digits2_pos p) - 53) as [|q|q] eqn:E; try lia.
  replace (Z.to_pos (53 - Zpos (digits2_pos p))) with q by lia.
  rewrite Zpos_iter_xO, Z.land_ones by lia.
  rewrite Z.mod_mul by lia. simpl Z.eqb. cbv iota.
  rewrite <- Z.shiftl_mul_pow2 by lia.
  rewrite Z.shiftr_shiftl_l by lia. rewrite Z.sub_diag. reflexivity.
Qed.

(** * The client *)

Section Facts.
Variable App : Type.
Implicit Types w : world App.

(** *** What [emit] does

    It records the emission and calls callbacks; the client's own
    fields stay as they are. *)

Lemma same_client_refl w : same_client w w.
Proof. repeat split. Qed.

Lemma same_client_trans w1 w2 w3 :
  same_client w1 w2 -> same_client w2 w3 -> same_client w1 w3.
Proof.
  unfold same_client. intros (?&?&?&?&?&?) (?&?&?&?&?&?).
  repeat split; congruence.
Qed.

Lemma invoke_same ev args i (cb : callback App) w :
  same_client w (snd (invoke ev args i cb w)) /\
  trace (snd (invoke ev args i cb w)) = trace w ++ [Called ev i].
Proof.
  unfold invoke. simpl.
  destruct (cb (sess w) args (app w)) as [r a]. simpl.
  split; [repeat split | reflexivity].
Qed.

Lemma forEach_invoke ev args (cbs : list (callback App)) : forall i w,
  exists k, (k <= length cbs)%nat /\
    same_client w (snd (forEach cbs i (invoke ev args) w)) /\
    trace (snd (forEach cbs i (invoke ev args) w))
    = trace w ++ map (Called ev) (seq i k) /\
    (fst (forEach cbs i (invoke ev args) w) = Normal tt -> k = length cbs).
Proof.
  induction cbs as [|cb cbs IH]; intros i w.
  - exists 0%nat. simpl. rewrite app_nil_r. auto using same_client_refl.
  - simpl. unfold bind.
    destruct (invoke_same ev args i cb w) as [Hs Ht].
    destruct (invoke ev args i cb w) as [[[]|e] w1]; simpl in *.
    + destruct (IH (S i) w1) as (k & Hk & Hs' & Ht' & Hn).
      exists (S k). split; [lia|]. split; [eauto using same_client_trans|].
      split.
      * rewrite Ht', Ht, <- app_assoc. reflexivity.
      * intros H. f_equal. auto.
    + exists 1%nat. split; [lia|]. split; [exact Hs|]. split; [exact Ht|discriminate].
Qed.

Lemma emit_spec ev args w :
  exists k,
    same_client w (snd (emit ev args w)) /\
    trace (snd (emit ev args w))
    = trace w ++ Emitted ev args (sess w) :: map (Called ev) (seq 0 k).
Proof.
  unfold emit, bind, modify. simpl.
  destruct (inherited ev).
  - exists 0%nat. simpl. split; [repeat split | reflexivity].
  - simpl. destruct (listeners w !! ev) as [cbs|] eqn:E.
    + set (w1 := observe _ w).
      destruct (forEach_invoke ev args cbs 0 w1) as (k & _ & Hs & Ht & _).
      exists k. split.
      * eapply same_client_trans; [|exact Hs]. repeat split.
      * rewrite Ht. unfold w1. simpl. rewrite <- app_assoc. reflexivity.
    + exists 0%nat. simpl. split; [repeat split | reflexivity].
Qed.

Lemma emit_sess ev args w : sess (snd (emit ev args w)) = sess w.
Proof. destruct (emit_spec ev args w) as (k & (?&?&?&?&?&?) & _). assumption. Qed.


(** *** The handler, case by case *)

Lemma strict_eq_str v s : strict_eq v (VStr s) = true -> v = VStr s.
Proof.
  destruct v; simpl; try discriminate.
  intros H. apply bool_decide_eq_true in H. congruence.
Qed.

Lemma switch_elim (P : completion unit * world App -> Prop) t cs w :
  (forall l body, In (l, body) cs -> t = VStr (js l) -> P (body w)) ->
  ((forall l body, In (l, body) cs -> strict_eq t (VStr (js l)) = false) ->
   P (Normal tt, w)) ->
  P (switch t cs w).
Proof.
  intros Hyes Hno. unfold switch.
  match goal with
  | |- context [find ?f cs] => destruct (find f cs) as [[l body]|] eqn:E
  end.
  - apply find_some in E as [Hin Heq]. simpl in *.
    apply (Hyes l body Hin), strict_eq_str, Heq.
  - apply Hno. intros l body Hin.
    apply (find_none _ _ E (l, body) Hin).
Qed.

Lemma prop_defined o k w :
  is_nullish o = false -> prop o k w = (Normal (field o k), w).
Proof. destruct o; simpl; try discriminate; reflexivity. Qed.

Lemma bind_prop {B} o k (f : value -> M App B) w :
  is_nullish o = false -> bind (prop o k) f w = f (field o k) w.
Proof. intros H. unfold bind. rewrite prop_defined by exact H. reflexivity. Qed.

Lemma session_eta s :
  {| playerId := playerId s; roomId := roomId s; ownerId := ownerId s;
     isHost := isHost s |} = s.
Proof. destruct s; reflexivity. Qed.

Ltac run_body :=
  cbn [bind ret modify set_playerId set_roomId set_ownerId set_isHost
       get_playerId fst snd sess set_sess playerId roomId ownerId isHost].

Ltac decide_types :=
  repeat match goal with
  | |- context [strict_eq (VStr (js ?a)) (VStr (js ?b))] =>
      let r := eval vm_compute in (strict_eq (VStr (js a)) (VStr (js b))) in
      change (strict_eq (VStr (js a)) (VStr (js b))) with r
  end.

(** The session a case of the [switch] leaves is the one
    [step_session] describes. *)
Lemma cases_session d w t :
  is_nullish d = false -> t = field d "type" ->
  sess (snd (switch t (cases d) w)) = step_session (sess w) d.
Proof.
  intros Hd Ht. apply switch_elim.
  - intros l body Hin Hl. unfold step_session, is_type. rewrite <- Ht, Hl.
    simpl in Hin.
    repeat (destruct Hin as [Hin|Hin];
            [injection Hin as <- <-; decide_types; cbv iota;
             repeat first [rewrite bind_prop by exact Hd | progress run_body];
             rewrite emit_sess; run_body; rewrite ?session_eta; reflexivity|]).
    destruct Hin.
  - intros Hno. simpl.
    unfold step_session, is_type. rewrite <- Ht.
    assert (H : forall l, In l (map fst (cases (App:=App) d)) ->
                          strict_eq t (VStr (js l)) = false).
    { intros l Hin. apply in_map_iff in Hin as [[l' body] [<- Hin]].
      exact (Hno l' body Hin). }
    rewrite !H by (simpl; tauto). reflexivity.
Qed.

Lemma handle_malformed text w :
  JSON.parse text (next_loc w) = None ->
  _handleMessage (Text text) w = (Normal tt, w).
Proof.
  intros H. unfold _handleMessage, bind, try_catch, JSON_parse.
  rewrite H. reflexivity.
Qed.

Lemma handle_parsed text w d nx :
  JSON.parse text (next_loc w) = Some (d, nx) ->
  _handleMessage (Text text) w
  = bind (prop d "type") (fun t => switch t (cases d)) (set_next_loc nx w).
Proof.
  intros H. unfold _handleMessage, try_catch, JSON_parse.
  unfold bind at 1 2. rewrite H. reflexivity.
Qed.

Lemma step_session_nullish s d : is_nullish d = true -> step_session s d = s.
Proof. destruct d; try discriminate; reflexivity. Qed.

Lemma handle_text_session text w d nx :
  JSON.parse text (next_loc w) = Some (d, nx) ->
  sess (snd (_handleMessage (Text text) w)) = step_session (sess w) d.
Proof.
  intros H. rewrite (handle_parsed _ _ _ _ H).
  destruct (is_nullish d) eqn:Hd.
  - rewrite step_session_nullish by exact Hd.
    destruct d; try discriminate; reflexivity.
  - rewrite bind_prop by exact Hd.
    rewrite (cases_session d _ _ Hd eq_refl). reflexivity.
Qed.

Lemma handle_binary_session buffer w :
  sess (snd (_handleMessage (Binary buffer) w)) = sess w.
Proof.
  unfold _handleMessage, getUint32.
  destruct buffer as [|b0 [|b1 [|b2 [|b3 rest]]]]; try reflexivity.
  cbn [bind ret slice fresh]. rewrite emit_sess. reflexivity.
Qed.

Lemma onclose_session w : sess (snd (onclose w)) = initial_session.
Proof.
  unfold onclose.
  cbn [bind ret modify set_playerId set_roomId set_ownerId set_isHost].
  rewrite emit_sess. reflexivity.
Qed.

Lemma deliver_session w n : sess (deliver w n) = next_session w n.
Proof.
  unfold deliver, next_session, handler.
  destruct n as [| | |[text|buffer]]; cbv iota.
  - unfold onopen. apply emit_sess.
  - apply onclose_session.
  - reflexivity.
  - destruct (JSON.parse text (next_loc w)) as [[d nx]|] eqn:E.
    + apply (handle_text_session _ _ _ _ E).
    + rewrite handle_malformed by exact E. reflexivity.
  - apply handle_binary_session.
Qed.

Lemma complete_ok v stk nx st :
  reflexive v -> reflexive_fields v -> Forall frame_ok stk ->
  JSON.complete v stk nx = Some st -> pstate_ok st.
Proof.
  intros Hv Hf Hstk. unfold JSON.complete.
  destruct stk as [|[elems|fields [k|]] stk']; intros H;
    try discriminate; injection H as <-; split; simpl; auto.
  - inversion Hstk; subst. constructor; simpl; auto.
  - inversion Hstk as [|? ? Hfr Hrest]; subst. constructor; auto.
    simpl in *. constructor; auto.
Qed.

(** *** The parser's values equal themselves *)

Lemma reflexive_num a : reflexive (VNum (JSON.num_value a)).
Proof. apply eqb_refl, of_decimal_not_nan. Qed.

Lemma value_step_ok st t st' :
  pstate_ok st -> JSON.value_step st t = Some st' -> pstate_ok st'.
Proof.
  intros [Hstk _]. unfold JSON.value_step.
  destruct t; try discriminate;
    try (apply complete_ok; [ | exact I | exact Hstk]).
  - intros H. injection H as <-. split; simpl; auto.
    constructor; simpl; auto.
  - intros H. injection H as <-. split; simpl; auto.
    constructor; simpl; auto.
  - unfold reflexive. simpl. apply bool_decide_eq_true. reflexivity.
  - apply reflexive_num.
  - reflexivity.
  - reflexivity.
  - reflexivity.
Qed.

Lemma close_array_ok st st' :
  pstate_ok st -> JSON.close_array st = Some st' -> pstate_ok st'.
Proof.
  intros [Hstk _]. unfold JSON.close_array.
  destruct (JSON.stack st) as [|[elems|fields k] stk']; try discriminate.
  inversion Hstk; subst.
  apply complete_ok; [apply N.eqb_refl | exact I | assumption].
Qed.

Lemma close_object_ok st st' :
  pstate_ok st -> JSON.close_object st = Some st' -> pstate_ok st'.
Proof.
  intros [Hstk _]. unfold JSON.close_object.
  destruct (JSON.stack st) as [|[elems|fields [k|]] stk']; try discriminate.
  inversion Hstk as [|? ? Hfr Hrest]; subst.
  apply complete_ok; [apply N.eqb_refl | | assumption].
  simpl. apply Forall_rev. exact Hfr.
Qed.

Lemma key_step_ok st t st' :
  pstate_ok st -> JSON.key_step st t = Some st' -> pstate_ok st'.
Proof.
  intros [Hstk _]. unfold JSON.key_step.
  destruct t; try discriminate.
  destruct (JSON.stack st) as [|[elems|fields [k|]] stk']; try discriminate.
  intros H. injection H as <-. split; simpl; auto.
  inversion Hstk; subst. constructor; auto.
Qed.

Lemma parse_step_ok st t st' :
  pstate_ok st -> JSON.parse_step st t = Some st' -> pstate_ok st'.
Proof.
  intros Hst. pose proof Hst as [Hstk _]. unfold JSON.parse_step.
  destruct (JSON.mode st).
  - apply value_step_ok, Hst.
  - destruct t; first [apply close_array_ok, Hst | apply value_step_ok, Hst].
  - destruct t; first [apply close_object_ok, Hst | apply key_step_ok, Hst].
  - apply key_step_ok, Hst.
  - destruct t; try discriminate.
    intros H. injection H as <-. split; simpl; auto.
  - destruct t; try discriminate;
      first [ apply close_array_ok, Hst | apply close_object_ok, Hst | idtac ].
    destruct (JSON.stack st) as [|[elems|fields k] stk']; try discriminate;
      intros H; injection H as <-; split; simpl; auto.
  - discriminate.
Qed.

Lemma parse_tokens_ok ts : forall st st',
  pstate_ok st -> JSON.parse_tokens st ts = Some st' -> pstate_ok st'.
Proof.
  induction ts as [|t ts IH]; intros st st' Hst; simpl.
  - intros H. injection H as <-. exact Hst.
  - destruct (JSON.parse_step st t) as [st1|] eqn:E; [|discriminate].
    apply IH. eapply parse_step_ok; eauto.
Qed.

Lemma parse_reflexive_fields text nx d nx' :
  JSON.parse text nx = Some (d, nx') -> reflexive_fields d.
Proof.
  unfold JSON.parse.
  destruct (JSON.lex JSON.LStart text) as [ts|]; [|discriminate].
  destruct (JSON.parse_tokens _ ts) as [st|] eqn:E; [|discriminate].
  apply parse_tokens_ok in E; [|split; simpl; auto].
  destruct E as [_ Hm].
  destruct (JSON.mode st); try discriminate.
  intros H. injection H as <- _. exact Hm.
Qed.

Lemma get_own_reflexive fields k v :
  Forall (fun kv => reflexive (snd kv)) fields ->
  get_own fields k = Some v -> reflexive v.
Proof.
  induction 1 as [|[k' v'] rest Hv Hrest IH]; simpl; [discriminate|].
  destruct (get_own rest k) as [v1|].
  - intros H. injection H as <-. auto.
  - destruct (bool_decide (k' = k)); [|discriminate].
    intros H. injection H as <-. exact Hv.
Qed.

Lemma field_reflexive d k : reflexive_fields d -> reflexive (field d k).
Proof.
  destruct d; simpl; try reflexivity.
  intros H. destruct (get_own fields (js k)) as [v|] eqn:E; [|reflexivity].
  eapply get_own_reflexive; eauto.
Qed.

Lemma strict_eq_sym a b : strict_eq a b = strict_eq b a.
Proof.
  destruct a, b; simpl; try reflexivity.
  - destruct b, b0; reflexivity.
  - apply eqb_sym.
  - apply bool_decide_ext. split; congruence.
  - apply N.eqb_sym.
  - apply N.eqb_sym.
  - apply N.eqb_sym.
Qed.

(** *** The host invariant *)

Lemma strict_eq_null v : strict_eq v VNull = is_null v.
Proof. destruct v; reflexivity. Qed.

Lemma host_invariant_step s d :
  host_invariant s -> reflexive (playerId s) -> reflexive_fields d ->
  host_consistent s d = true ->
  host_invariant (step_session s d) /\ reflexive (playerId (step_session s d)).
Proof.
  unfold host_invariant, host_consistent, step_session.
  intros K R F H.
  repeat (apply andb_true_iff in H as [H ?]).
  destruct (is_type d "assignId").
  { simpl. split; [|apply field_reflexive, F].
    rewrite K. destruct (is_null (ownerId s)); [reflexivity|discriminate]. }
  destruct (is_type d "roomCreated").
  { simpl. split; [|exact R].
    match goal with H : _ && _ = true |- _ => apply andb_true_iff in H as [-> ->] end.
    reflexivity. }
  destruct (is_type d "roomJoined").
  { simpl. split; [|exact R].
    match goal with H : _ || _ = true |- _ => apply orb_true_iff in H as [->| ->%negb_true_iff] end.
    - reflexivity.
    - symmetry. apply andb_false_r. }
  destruct (is_type d "leftRoom").
  { simpl. split; [reflexivity|exact R]. }
  destruct (is_type d "makeHost").
  { simpl. split; [|exact R].
    match goal with H : negb (is_null (playerId s)) = true |- _ => rewrite H end.
    rewrite R. reflexivity. }
  destruct (is_type d "reassignedHost").
  { simpl. split; [|exact R].
    rewrite (strict_eq_sym (field d "newHostId")).
    destruct (is_null (field d "newHostId")) eqn:En; [|reflexivity].
    destruct (field d "newHostId"); try discriminate.
    rewrite strict_eq_null. simpl.
    match goal with H : _ || _ = true |- _ => simpl in H; apply negb_true_iff in H end.
    assumption. }
  split; assumption.
Qed.

Lemma host_invariant_next w n :
  host_invariant (sess w) -> reflexive (playerId (sess w)) ->
  message_ok host_consistent w n = true ->
  host_invariant (next_session w n) /\ reflexive (playerId (next_session w n)).
Proof.
  intros K R H. unfold next_session, message_ok in *.
  destruct n as [| | |[text|buffer]]; try (split; assumption).
  - split; reflexivity.
  - destruct (JSON.parse text (next_loc w)) as [[d nx]|] eqn:E; [|split; assumption].
    apply host_invariant_step; auto.
    eapply parse_reflexive_fields, E.
Qed.

Lemma host_invariant_equation s :
  host_invariant s -> playerId s <> VNull -> host_equation s.
Proof.
  unfold host_invariant, host_equation. intros -> Hp.
  destruct (is_null (ownerId s)) eqn:E; [|reflexivity].
  destruct (ownerId s); try discriminate.
  rewrite strict_eq_sym, strict_eq_null.
  destruct (playerId s); try reflexivity. congruence.
Qed.

Lemma host_invariant_states ns : forall w,
  host_invariant (sess w) -> reflexive (playerId (sess w)) ->
  all_ok host_consistent w ns = true ->
  Forall (fun w' => host_invariant (sess w')) (states w ns).
Proof.
  induction ns as [|n ns IH]; intros w K R H; simpl; [constructor|].
  simpl in H. apply andb_true_iff in H as [Hn Hns].
  destruct (host_invariant_next w n K R Hn) as [K' R'].
  rewrite <- deliver_session in K', R'.
  constructor; [exact K'|]. apply IH; assumption.
Qed.

(** *** The room invariant *)

Lemma room_invariant_step s d :
  room_invariant s -> owner_known s d = true -> room_invariant (step_session s d).
Proof.
  unfold room_invariant, owner_known, step_session.
  intros K H.
  repeat (apply andb_true_iff in H as [H ?]).
  assert (Hnull : forall v, v <> VNull -> is_null v = false)
    by (intros []; simpl; congruence).
  repeat match goal with
         | |- context [if is_type d ?l then _ else _] => destruct (is_type d l)
         end; simpl; intros Hr; auto; try congruence;
    repeat match goal with
           | H : _ || _ = true |- _ =>
               apply orb_true_iff in H as [H|H%negb_true_iff]
           end;
    try assumption;
    try (rewrite Hnull in * by assumption; discriminate).
Qed.

Lemma room_invariant_states ns : forall w,
  room_invariant (sess w) ->
  all_ok owner_known w ns = true ->
  Forall (fun w' => room_invariant (sess w')) (states w ns).
Proof.
  induction ns as [|n ns IH]; intros w K H; simpl; [constructor|].
  simpl in H. apply andb_true_iff in H as [Hn Hns].
  assert (K' : room_invariant (sess (deliver w n))).
  { rewrite deliver_session. unfold next_session, message_ok in *.
    destruct n as [| | |[text|buffer]]; try assumption.
    - intros Hr. simpl in Hr. congruence.
    - destruct (JSON.parse text (next_loc w)) as [[d nx]|]; [|assumption].
      apply room_invariant_step; assumption. }
  constructor; [exact K'|]. apply IH; assumption.
Qed.

(** *** Disconnection *)


(** *** Text frames *)

(** C6.  A text frame that is not JSON is dropped: the handler
    returns normally and nothing at all has changed, so no event was
    emitted and no session field written. *)
Theorem malformed_text_discarded (text : jsstring) (w : world App) :
  JSON.parse text (next_loc w) = None ->
  _handleMessage (Text text) w = (Normal tt, w).
Proof. apply handle_malformed. Qed.

Lemma set_next_loc_same w : set_next_loc (next_loc w) w = w.
Proof. destruct w; reflexivity. Qed.

(** C7.  A text frame whose JSON value is an object with a [type]
    that is none of the sixteen known ones is ignored: the handler
    returns normally, and session, trace, socket, listeners and
    application state are as before; only the heap has grown by the
    parsed value. *)
Theorem unrecognized_type_ignored
    (text : jsstring) (w : world App) (l : loc) (fields : list (jsstring * value))
    (nx : loc) :
  JSON.parse text (next_loc w) = Some (VObj l fields, nx) ->
  (forall label, In label recognized -> is_type (VObj l fields) label = false) ->
  _handleMessage (Text text) w = (Normal tt, set_next_loc nx w).
Proof.
  intros Hp Hty. rewrite (handle_parsed _ _ _ _ Hp).
  rewrite bind_prop by reflexivity.
  apply (switch_elim (fun r => r = (Normal tt, set_next_loc nx w))); [|reflexivity].
  intros label body Hin Ht. exfalso.
  assert (Hl : In label recognized).
  { change recognized with (map fst (cases (App:=App) (VObj l fields))).
    apply in_map_iff. exists (label, body). auto. }
  specialize (Hty label Hl). unfold is_type in Hty. rewrite Ht in Hty.
  simpl in Hty. apply bool_decide_eq_false in Hty. auto.
Qed.

(** C10.  The text [null] is JSON, its value is [null], and reading
    [data.type] then throws a TypeError that leaves the handler, the
    client's state being untouched; the JSON text [7], not an object
    either, is handled without a throw. *)
Theorem null_text_throws (w : world App) :
  JSON.parse (js "null") (next_loc w) = Some (VNull, next_loc w) /\
  _handleMessage (Text (js "null")) w = (Throw TypeError, w) /\
  _handleMessage (Text (js "7")) w = (Normal tt, w).
Proof.
  split; [reflexivity|]. split.
  - rewrite (handle_parsed _ _ VNull (next_loc w)) by reflexivity.
    rewrite set_next_loc_same. reflexivity.
  - rewrite (handle_parsed _ _ (VNum (JSON.num_value (JSON.num_start false 7)))
               (next_loc w)) by reflexivity.
    rewrite set_next_loc_same. reflexivity.
Qed.

(** *** Binary frames *)

(** C9.  A binary frame of fewer than four bytes makes [getUint32]
    throw a RangeError, which leaves the handler: the frame is not
    discarded quietly.  Nothing was emitted or written before. *)
Theorem short_binary_frame_throws (buffer : list byte) (w : world App) :
  (length buffer < 4)%nat ->
  _handleMessage (Binary buffer) w = (Throw RangeError, w).
Proof.
  intros H. destruct buffer as [|b0 [|b1 [|b2 [|b3 rest]]]]; try reflexivity.
  simpl in H. lia.
Qed.

Lemma to_N_byte_of_N n : Byte.to_N (byte_of_N n) = (n mod 256)%N.
Proof.
  unfold byte_of_N.
  destruct (Byte.of_N (n mod 256)) as [b|] eqn:E.
  - apply Byte.to_of_N, E.
  - apply Byte.of_N_None_iff in E.
    pose proof (N.mod_upper_bound n 256 ltac:(discriminate)). lia.
Qed.

Lemma uint32_be_value n :
  (n < 4294967296)%N ->
  (((Byte.to_N (byte_of_N (n / 16777216)) * 256
     + Byte.to_N (byte_of_N (n / 65536))) * 256
    + Byte.to_N (byte_of_N (n / 256))) * 256
   + Byte.to_N (byte_of_N n))%N = n.
Proof.
  intros H. rewrite !to_N_byte_of_N.
  pose proof (N.div_mod n 256 ltac:(discriminate)).
  pose proof (N.div_mod (n / 256) 256 ltac:(discriminate)).
  pose proof (N.div_mod (n / 65536) 256 ltac:(discriminate)).
  pose proof (N.mod_upper_bound n 256 ltac:(discriminate)).
  pose proof (N.mod_upper_bound (n / 256) 256 ltac:(discriminate)).
  pose proof (N.mod_upper_bound (n / 65536) 256 ltac:(discriminate)).
  assert (E1 : (n / 65536 = n / 256 / 256)%N) by (rewrite N.Div0.div_div; reflexivity).
  assert (E2 : (n / 16777216 = n / 65536 / 256)%N) by (rewrite N.Div0.div_div; reflexivity).
  assert (E3 : (n / 16777216 < 256)%N).
  { apply N.Div0.div_lt_upper_bound. exact H. }
  rewrite (N.mod_small (n / 16777216)) by exact E3.
  rewrite E2, E1 in *. lia.
Qed.

Lemma getUint32_frame n payload w :
  (n < 4294967296)%N ->
  getUint32 (binary_frame n payload) w = (Normal (Num.of_Z (Z.of_N n)), w).
Proof.
  intros H. unfold binary_frame, uint32_be, getUint32. cbn [List.app].
  rewrite (uint32_be_value n H). reflexivity.
Qed.


(** *** Sending *)

Lemma send_closed obj w : is_open w = false -> _send obj w = (Normal tt, w).
Proof. intros H. unfold _send. rewrite H. reflexivity. Qed.

Lemma sendBinary_closed buffer w :
  is_open w = false -> sendBinary buffer w = (Normal tt, w).
Proof. intros H. unfold sendBinary. rewrite H. reflexivity. Qed.

Lemma not_open w :
  ws w = None \/ (exists sock, ws w = Some sock /\ readyState sock <> OPEN) ->
  is_open w = false.
Proof.
  unfold is_open. intros [->|(sock & -> & H)]; [reflexivity|].
  destruct sock as [[] out]; simpl in *; congruence.
Qed.

(** Behind a gate that is shut a call leaves the client as it was,
    the heap apart; it throws only where the spread of its tags does. *)
Lemma call_closed (c : api_call) (w : world App) :
  is_open w = false ->
  same_but_heap w (snd (call c w)) /\
  fst (call c w) = if spreadable c then Normal tt else Throw TypeError.
Proof.
  intros H.
  destruct c; unfold call, spreadable, tag_list, createRoom, joinRoom, leaveRoom,
    listRooms, updateMeta, addTag, removeTag, sendRelay, tellOwner, tellPlayer, spread;
    try (cbn [bind ret new_object new_array fresh game_tag set_next_loc next_loc];
         rewrite send_closed by exact H; split; [repeat split | reflexivity]).
  - destruct tags, metaData;
      cbn [bind ret throw new_object new_array fresh game_tag set_next_loc next_loc
           iterate];
      rewrite ?send_closed by exact H; (split; [repeat split | reflexivity]).
  - destruct tags;
      cbn [bind ret throw new_object new_array fresh game_tag set_next_loc next_loc
           iterate];
      rewrite ?send_closed by exact H; (split; [repeat split | reflexivity]).
  - rewrite sendBinary_closed by exact H. split; [repeat split | reflexivity].
Qed.

(** C5 (amended).  While the client has no socket, or one that is not
    open, each call of the outbound API hands nothing to the socket:
    socket and outbox, session, listeners, application state and trace
    are as before (only heap addresses were used up by the message
    object that is dropped).  The call returns normally when its
    [tags] argument, if it has one, is omitted or iterable; [createRoom]
    and [listRooms] with other tags throw a TypeError, the message
    object being built before the socket is looked at. *)
Theorem send_dropped_when_not_open (c : api_call) (w : world App) :
  ws w = None \/ (exists sock, ws w = Some sock /\ readyState sock <> OPEN) ->
  same_but_heap w (snd (call c w)) /\
  fst (call c w) = if spreadable c then Normal tt else Throw TypeError.
Proof.
  intros H. apply call_closed, not_open, H.
Qed.

(** *** Callbacks that throw *)

Lemma forEach_cons ev args (c0 : callback App) (cbs : list (callback App)) i w :
  forEach (c0 :: cbs) i (invoke ev args) w
  = match c0 (sess w) args (app w) with
    | (Normal _, a) =>
        forEach cbs (S i) (invoke ev args) (set_app a (observe (Called ev i) w))
    | (Throw e, a) => (Throw e, set_app a (observe (Called ev i) w))
    end.
Proof.
  cbn [forEach]. unfold bind, invoke. cbn [sess observe app].
  destruct (c0 (sess w) args (app w)) as [[[]|e] a]; reflexivity.
Qed.

Lemma forEach_all_return ev args (cbs : list (callback App)) : forall i w,
  (forall c a, In c cbs -> fst (c (sess w) args a) = Normal tt) ->
  fst (forEach cbs i (invoke ev args) w) = Normal tt /\
  trace (snd (forEach cbs i (invoke ev args) w))
  = trace w ++ map (Called ev) (seq i (length cbs)).
Proof.
  induction cbs as [|c0 cbs IH]; intros i w Hok.
  - simpl. rewrite app_nil_r. auto.
  - rewrite forEach_cons.
    pose proof (Hok c0 (app w) (or_introl eq_refl)) as H0.
    destruct (c0 (sess w) args (app w)) as [r a]. simpl in H0. subst r.
    match goal with |- context [forEach cbs (S i) _ ?w1] =>
      destruct (IH (S i) w1) as [Hr Htr] end.
    { intros c a' Hin. cbn [sess set_app]. apply Hok. right. exact Hin. }
    split; [exact Hr|]. rewrite Htr. cbn [trace set_app observe length seq map].
    rewrite <- app_assoc. reflexivity.
Qed.

(** If no callback throws, [emit] calls all of them, in the order of
    their registration, and returns. *)
Lemma emit_all_when_none_throws ev args (cbs : list (callback App)) w :
  inherited ev = false ->
  listeners w !! ev = Some cbs ->
  (forall c a, In c cbs -> fst (c (sess w) args a) = Normal tt) ->
  fst (emit ev args w) = Normal tt /\
  trace (snd (emit ev args w))
  = trace w ++ Emitted ev args (sess w) :: map (Called ev) (seq 0 (length cbs)).
Proof.
  intros Hi Hl Hok. unfold emit, bind, modify. cbn [fst snd].
  rewrite Hi. cbn [listeners observe]. rewrite Hl.
  match goal with |- context [forEach cbs 0%nat _ ?w1] =>
    destruct (forEach_all_return ev args cbs 0%nat w1 Hok) as [Hr Ht] end.
  split; [exact Hr|]. rewrite Ht. cbn [trace observe].
  rewrite <- app_assoc. reflexivity.
Qed.

(** The callbacks run one after the other, each from the application
    state the one before it left: when all of them return, [forEach]
    returns, in the state the last one left. *)
Lemma forEach_after_all ev args (cbs : list (callback App)) : forall i w a',
  after_all (sess w) args cbs (app w) = Some a' ->
  fst (forEach cbs i (invoke ev args) w) = Normal tt /\
  app (snd (forEach cbs i (invoke ev args) w)) = a' /\
  trace (snd (forEach cbs i (invoke ev args) w))
  = trace w ++ map (Called ev) (seq i (length cbs)).
Proof.
  induction cbs as [|c0 cbs IH]; intros i w a' H.
  - simpl in *. rewrite app_nil_r. inversion H. auto.
  - rewrite forEach_cons. cbn [after_all] in H.
    destruct (c0 (sess w) args (app w)) as [[[]|e0] a]; [|discriminate H].
    match goal with |- context [forEach cbs (S i) _ ?w1] =>
      destruct (IH (S i) w1 a' H) as (Hr & Ha & Htr) end.
    split; [exact Hr|]. split; [exact Ha|].
    rewrite Htr. cbn [trace set_app observe length seq map].
    rewrite <- app_assoc. reflexivity.
Qed.

(** When the callbacks before [cb] return and [cb], run from the state
    they left, throws, [forEach] throws what [cb] threw, in the state
    [cb] left: no later callback has run. *)
Lemma forEach_until_throw ev args (pre : list (callback App)) (cb : callback App)
    (post : list (callback App)) e : forall i w a1,
  after_all (sess w) args pre (app w) = Some a1 ->
  fst (cb (sess w) args a1) = Throw e ->
  fst (forEach (pre ++ cb :: post) i (invoke ev args) w) = Throw e /\
  app (snd (forEach (pre ++ cb :: post) i (invoke ev args) w))
  = snd (cb (sess w) args a1) /\
  trace (snd (forEach (pre ++ cb :: post) i (invoke ev args) w))
  = trace w ++ map (Called ev) (seq i (S (length pre))).
Proof.
  induction pre as [|c0 pre IH]; intros i w a1 Hpre Hcb.
  - cbn [List.app]. rewrite forEach_cons. cbn [after_all] in Hpre.
    inversion Hpre; subst a1.
    destruct (cb (sess w) args (app w)) as [r a]. simpl in Hcb. subst r.
    repeat split.
  - cbn [List.app]. rewrite forEach_cons. cbn [after_all] in Hpre.
    destruct (c0 (sess w) args (app w)) as [[[]|e0] a]; [|discriminate Hpre].
    match goal with |- context [forEach _ (S i) _ ?w1] =>
      destruct (IH (S i) w1 a1 Hpre Hcb) as (Hr & Ha & Htr) end.
    split; [exact Hr|]. split; [exact Ha|].
    rewrite Htr. cbn [trace set_app observe length seq map].
    rewrite <- app_assoc. reflexivity.
Qed.

(** C2 (amended).  When the callbacks registered for an event before
    some callback return, each run from the application state the one
    before it left, and that callback, run from the state they left,
    throws, [emit] has called these callbacks, in the order of their
    registration, and calls none of those registered after it: the
    trace ends with the call of the thrower, the application is in the
    state the thrower left, and what it threw leaves [emit]. *)
Theorem emit_stops_at_first_throw
    (ev : jsstring) (args : list value) (w : world App)
    (pre : list (callback App)) (cb : callback App) (post : list (callback App))
    (a1 : App) (e : exn) :
  inherited ev = false ->
  listeners w !! ev = Some (pre ++ cb :: post) ->
  after_all (sess w) args pre (app w) = Some a1 ->
  fst (cb (sess w) args a1) = Throw e ->
  fst (emit ev args w) = Throw e /\
  app (snd (emit ev args w)) = snd (cb (sess w) args a1) /\
  trace (snd (emit ev args w))
  = trace w ++ Emitted ev args (sess w)
               :: map (Called ev) (seq 0 (S (length pre))).
Proof.
  intros Hi Hl Hpre Hcb. unfold emit, bind, modify. cbn [fst snd].
  rewrite Hi. cbn [listeners observe]. rewrite Hl.
  match goal with |- context [forEach _ 0%nat _ ?w1] =>
    destruct (forEach_until_throw ev args pre cb post e 0%nat w1 a1 Hpre Hcb)
      as (Hr & Ha & Ht) end.
  split; [exact Hr|]. split; [exact Ha|]. rewrite Ht. cbn [trace observe].
  rewrite <- app_assoc. reflexivity.
Qed.

(** *** Host and owner, room and owner *)

(** C1 (amended).  From a client's initial session on, as long as
    every message agrees with the session it arrives in on who the
    host is ([host_consistent]), the session after each notification
    -- message, close or other -- has [isHost] true exactly when
    [ownerId] is not [null] and equals [playerId]; whenever
    [playerId] is not [null] this is the equation
    [isHost == (ownerId == playerId)]. *)
Theorem host_invariant_holds (w : world App) (ns : list notification) :
  sess w = initial_session ->
  all_ok host_consistent w ns = true ->
  Forall (fun w' => host_invariant (sess w') /\
                    (playerId (sess w') <> VNull -> host_equation (sess w')))
         (states w ns).
Proof.
  intros Hw Hok.
  assert (H : Forall (fun w' => host_invariant (sess w')) (states w ns)).
  { apply host_invariant_states; [rewrite Hw; reflexivity.. | exact Hok]. }
  eapply Forall_impl; [exact H|].
  intros w' K. split; [exact K|]. apply host_invariant_equation, K.
Qed.

(** C8 (amended).  From a session in which a room has an owner on, as
    long as every message tells the client who owns the room
    ([owner_known]), the session after each notification -- message,
    close or other -- has an [ownerId] that is neither [null] nor
    [undefined] whenever its [roomId] is not [null]. *)
Theorem room_invariant_holds (w : world App) (ns : list notification) :
  room_invariant (sess w) ->
  all_ok owner_known w ns = true ->
  Forall (fun w' => room_invariant (sess w')) (states w ns).
Proof. apply room_invariant_states. Qed.

End Facts.

(** * The theorems at concrete inputs *)

Example scenario_sessions :
  map sess (states fresh_client scenario)
  = [ {| playerId := VNum (Num.of_Z 7); roomId := VNull; ownerId := VNull;
         isHost := false |};
      {| playerId := VNum (Num.of_Z 7); roomId := VStr (js "R1");
         ownerId := VNum (Num.of_Z 7); isHost := true |};
      {| playerId := VNum (Num.of_Z 7); roomId := VStr (js "R1");
         ownerId := VNum (Num.of_Z 9); isHost := false |};
      initial_session ].
Proof. vm_compute. reflexivity. Qed.

Example scenario_trace :
  trace (run fresh_client scenario)
  = [ Emitted (js "assignedId") [VNum (Num.of_Z 7)]
        {| playerId := VNum (Num.of_Z 7); roomId := VNull; ownerId := VNull;
           isHost := false |};
      Emitted (js "roomCreated") [VStr (js "R1"); VNum (Num.of_Z 7); VObj 1%N []]
        {| playerId := VNum (Num.of_Z 7); roomId := VStr (js "R1");
           ownerId := VNum (Num.of_Z 7); isHost := true |};
      Emitted (js "reassignedHost") [VNum (Num.of_Z 9); VNum (Num.of_Z 7)]
        {| playerId := VNum (Num.of_Z 7); roomId := VStr (js "R1");
           ownerId := VNum (Num.of_Z 9); isHost := false |};
      Emitted (js "disconnected") [] initial_session ].
Proof. vm_compute. reflexivity. Qed.

Example on_inherited_name_throws :
  fst (on (js "toString") (note 0) noting_client) = Throw TypeError.
Proof. reflexivity. Qed.

Lemma host_invariant_holds_witness :
  sess fresh_client = initial_session /\
  all_ok host_consistent fresh_client scenario = true /\
  Forall (fun w' => host_invariant (sess w') /\
                    (playerId (sess w') <> VNull -> host_equation (sess w')))
         (states fresh_client scenario).
Proof.
  split; [reflexivity|]. split; [vm_compute; reflexivity|].
  apply (host_invariant_holds unit fresh_client scenario).
  - reflexivity.
  - vm_compute. reflexivity.
Defined.

(** C1, as stated, fails: after a close, [ownerId] and [playerId] are
    both [null], hence equal, and [isHost] is false; and after a
    [roomCreated] that arrives before any [assignId], [isHost] is true
    while [ownerId] is 7 and [playerId] still [null]. *)
Lemma host_equation_counterexample :
  ~ host_equation (sess (deliver fresh_client Close)) /\
  ~ host_equation
      (sess (deliver fresh_client
               (Message (Text (jq "{'type':'roomCreated','roomId':'R1','playerId':7}"))))).
Proof.
  split; intros H; vm_compute in H; discriminate H.
Qed.

(** The same callback returns when it is called first and throws when
    it is called third, after [note 0] has written its number down. *)
Lemma emit_stops_at_first_throw_witness :
  inherited (js "evt") = false /\
  listeners picky_client !! js "evt" = Some ([picky; note 0] ++ picky :: [note 2]) /\
  after_all (sess picky_client) [] [picky; note 0] (app picky_client) = Some [0%nat] /\
  fst (picky (sess picky_client) [] [0%nat]) = Throw (Thrown (VStr (js "taken"))) /\
  fst (emit (js "evt") [] picky_client) = Throw (Thrown (VStr (js "taken"))) /\
  app (snd (emit (js "evt") [] picky_client))
  = snd (picky (sess picky_client) [] [0%nat]) /\
  trace (snd (emit (js "evt") [] picky_client))
  = trace picky_client
    ++ Emitted (js "evt") [] (sess picky_client)
       :: map (Called (js "evt")) (seq 0 (S (length [picky; note 0]))).
Proof.
  assert (Hl : listeners picky_client !! js "evt"
               = Some ([picky; note 0] ++ picky :: [note 2])).
  { vm_compute. reflexivity. }
  split; [vm_compute; reflexivity|]. split; [exact Hl|].
  split; [reflexivity|]. split; [reflexivity|].
  apply (emit_stops_at_first_throw (list nat) (js "evt") [] picky_client
           [picky; note 0] picky [note 2] [0%nat] (Thrown (VStr (js "taken")))).
  - vm_compute. reflexivity.
  - exact Hl.
  - reflexivity.
  - reflexivity.
Defined.

(** C2, as stated, fails: of three callbacks registered for an event,
    the second throws; [emit] throws in turn and the third callback is
    never called -- only the first has written its number down. *)
Lemma emit_isolation_counterexample :
  listeners noting_client !! js "evt" = Some [note 0; thrower; note 2] /\
  fst (emit (js "evt") [] noting_client) = Throw (Thrown (VStr (js "boom"))) /\
  ~ In (Called (js "evt") 2) (trace (snd (emit (js "evt") [] noting_client))) /\
  app (snd (emit (js "evt") [] noting_client)) = [0%nat].
Proof.
  split; [vm_compute; reflexivity|]. split; [vm_compute; reflexivity|].
  split; [|vm_compute; reflexivity].
  intros H. vm_compute in H.
  repeat (destruct H as [H|H]; [discriminate H|]). exact H.
Qed.


Lemma send_dropped_when_not_open_witness :
  (ws fresh_client = None \/
   exists sock, ws fresh_client = Some sock /\ readyState sock <> OPEN) /\
  same_but_heap fresh_client
    (snd (call (CreateRoom (VStr (js "duel")) VUndefined VUndefined VUndefined)
               fresh_client)) /\
  fst (call (CreateRoom (VStr (js "duel")) VUndefined VUndefined VUndefined)
            fresh_client)
  = Normal tt.
Proof.
  split; [left; reflexivity|].
  apply (send_dropped_when_not_open unit
           (CreateRoom (VStr (js "duel")) VUndefined VUndefined VUndefined)
           fresh_client).
  left. reflexivity.
Defined.

(** C5, as stated, fails: on a client that has no socket, [createRoom]
    called with [null] for its tags and [listRooms] called with a
    number throw a TypeError; nothing was sent, there being no socket
    to send on. *)
Lemma send_gate_counterexample :
  ws fresh_client = None /\
  fst (call (CreateRoom VNull VUndefined VUndefined VUndefined) fresh_client)
  = Throw TypeError /\
  fst (call (ListRooms (VNum (Num.of_Z 5))) fresh_client) = Throw TypeError /\
  ws (snd (call (CreateRoom VNull VUndefined VUndefined VUndefined) fresh_client))
  = None.
Proof. repeat split. Qed.

Example send_when_connecting :
  let w := snd (connect fresh_client) in
  fst (call (CreateRoom VUndefined VUndefined (VBool true) VUndefined) w) = Normal tt /\
  ws (snd (call (CreateRoom VUndefined VUndefined (VBool true) VUndefined) w))
  = Some {| readyState := CONNECTING; outbox := [] |}.
Proof. split; reflexivity. Qed.

Example send_when_open :
  let w := set_ws (Some {| readyState := OPEN; outbox := [] |}) fresh_client in
  ws (snd (call (JoinRoom (VStr (js "R1"))) w))
  = Some {| readyState := OPEN;
            outbox := [SentText (VObj 0%N [(js "type", VStr (js "joinRoom"));
                                           (js "roomId", VStr (js "R1"))])] |}.
Proof. vm_compute. reflexivity. Qed.

Example connect_open_join :
  let w := deliver open_client Open in
  ws (snd (call (JoinRoom (VStr (js "R1"))) w))
  = Some {| readyState := OPEN;
            outbox := [SentText (VObj 0%N [(js "type", VStr (js "joinRoom"));
                                           (js "roomId", VStr (js "R1"))])] |} /\
  trace w = [Emitted (js "connected") [] initial_session].
Proof. split; vm_compute; reflexivity. Qed.

Example create_private_room :
  ws (snd (call (CreateRoom (VArr 100%N [VStr (js "ranked")]) VUndefined (VBool true)
                            VUndefined) open_client))
  = Some {| readyState := OPEN;
            outbox :=
              [SentText
                 (VObj 2%N
                    [(js "type", VStr (js "createRoom"));
                     (js "tags", VArr 1%N [VStr (js "ranked");
                                           VStr (js "game:defaultGame");
                                           VStr (js "private")]);
                     (js "maxClients", VNum (Num.of_Z 8));
                     (js "metaData", VObj 0%N [])])] |}.
Proof. vm_compute. reflexivity. Qed.

Example tags_spread_by_code_point :
  code_points (js "ab") = [js "a"; js "b"] /\
  code_points [55357; 56832; 33]%N = [[55357; 56832]; [33]]%N /\
  code_points [56832; 55357]%N = [[56832]; [55357]]%N /\
  ws (snd (call (ListRooms (VStr (js "ab"))) open_client))
  = Some {| readyState := OPEN;
            outbox :=
              [SentText
                 (VObj 1%N
                    [(js "type", VStr (js "listRooms"));
                     (js "tags", VArr 0%N [VStr (js "a"); VStr (js "b");
                                           VStr (js "game:defaultGame")])])] |}.
Proof. repeat split; vm_compute; reflexivity. Qed.

Example tags_not_iterable :
  call (ListRooms (VObj 100%N [])) open_client = (Throw TypeError, open_client) /\
  fst (call (CreateRoom (VBool true) VUndefined VUndefined VUndefined) open_client)
  = Throw TypeError /\
  ws (snd (call (CreateRoom (VBool true) VUndefined VUndefined VUndefined) open_client))
  = ws open_client.
Proof. repeat split. Qed.

(** A socket that [disconnect] and a new [connect] have replaced still
    notifies the client when it closes: the session is reset although
    the socket the client now holds is open, and stays open. *)
Example close_of_replaced_socket :
  let w := snd (_handleMessage (Text (jq "{'type':'assignId','playerId':7}"))
                               open_client) in
  playerId (sess w) = VNum (Num.of_Z 7) /\
  sess (deliver w Close) = initial_session /\
  is_open (deliver w Close) = true.
Proof. repeat split; vm_compute; reflexivity. Qed.

Example emit_in_registration_order :
  let w := snd (on (js "evt") (note 2)
                  (snd (on (js "evt") (note 1)
                     (constructor (js "wss://gamebackend-dk2p.onrender.com") None
                                  [] 0%N)))) in
  fst (emit (js "evt") [] w) = Normal tt /\
  app (snd (emit (js "evt") [] w)) = [1%nat; 2%nat].
Proof. split; vm_compute; reflexivity. Qed.

Lemma malformed_text_discarded_witness :
  JSON.parse (js "{not json") (next_loc fresh_client) = None /\
  _handleMessage (Text (js "{not json")) fresh_client = (Normal tt, fresh_client).
Proof.
  split; [reflexivity|].
  apply (malformed_text_discarded unit (js "{not json") fresh_client).
  reflexivity.
Defined.

Lemma unrecognized_type_ignored_witness :
  JSON.parse (jq "{'type':'unknownThing'}") (next_loc fresh_client)
  = Some (VObj 0%N [(js "type", VStr (js "unknownThing"))], 1%N) /\
  (forall label, In label recognized ->
     is_type (VObj 0%N [(js "type", VStr (js "unknownThing"))]) label = false) /\
  _handleMessage (Text (jq "{'type':'unknownThing'}")) fresh_client
  = (Normal tt, set_next_loc 1%N fresh_client).
Proof.
  assert (Hp : JSON.parse (jq "{'type':'unknownThing'}") (next_loc fresh_client)
               = Some (VObj 0%N [(js "type", VStr (js "unknownThing"))], 1%N)).
  { vm_compute. reflexivity. }
  assert (Ht : forall label, In label recognized ->
     is_type (VObj 0%N [(js "type", VStr (js "unknownThing"))]) label = false).
  { intros label Hin. simpl in Hin.
    repeat (destruct Hin as [<-|Hin]; [vm_compute; reflexivity|]).
    destruct Hin. }
  split; [exact Hp|]. split; [exact Ht|].
  apply (unrecognized_type_ignored unit _ fresh_client 0%N
           [(js "type", VStr (js "unknownThing"))] 1%N Hp Ht).
Defined.

Lemma room_invariant_holds_witness :
  room_invariant (sess fresh_client) /\
  all_ok owner_known fresh_client scenario = true /\
  Forall (fun w' => room_invariant (sess w')) (states fresh_client scenario).
Proof.
  assert (H0 : room_invariant (sess fresh_client)).
  { intros H. exfalso. apply H. reflexivity. }
  split; [exact H0|]. split; [vm_compute; reflexivity|].
  apply (room_invariant_holds unit fresh_client scenario H0).
  vm_compute. reflexivity.
Defined.

(** C8, as stated, fails: a [roomCreated] whose [playerId] is [null]
    leaves the client in room R1 with [ownerId] [null]. *)
Lemma room_invariant_counterexample :
  let w := deliver fresh_client
             (Message (Text (jq "{'type':'roomCreated','roomId':'R1','playerId':null}"))) in
  roomId (sess w) = VStr (js "R1") /\ ownerId (sess w) = VNull /\
  ~ room_invariant (sess w).
Proof.
  split; [vm_compute; reflexivity|]. split; [vm_compute; reflexivity|].
  intros H.
  assert (E : is_nullish VNull = false).
  { apply H. vm_compute. discriminate. }
  discriminate E.
Qed.

Lemma short_binary_frame_throws_witness :
  (length [x00; x00; x07] < 4)%nat /\
  _handleMessage (Binary [x00; x00; x07]) fresh_client = (Throw RangeError, fresh_client).
Proof.
  split; [simpl; lia|].
  apply (short_binary_frame_throws unit [x00; x00; x07] fresh_client).
  simpl. lia.
Defined.

(** * Further properties of the code *)

(** *** Integer ids as numbers *)

Lemma of_Z_pos_53 p :
  Zpos (digits2_pos p) = 53 ->
  Num.of_Z (Zpos p) = S754_finite false p 0.
Proof.
  intros Hd. unfold Num.of_Z, binary_normalize, binary_round.
  replace (fexp Num.prec Num.emax (Zpos (digits2_pos p) + 0)) with 0
    by (unfold fexp, emin, Num.prec, Num.emax; lia).
  unfold shl_align. change (0 - 0) with 0. cbv beta iota.
  assert (Hs : shr_fexp Num.prec Num.emax (Zpos p) 0 loc_Exact
               = ({| shr_m := Zpos p; shr_r := false; shr_s := false |}, 0)).
  { unfold shr_fexp. simpl Zdigits2.
    replace (fexp Num.prec Num.emax (Zpos (digits2_pos p) + 0) - 0) with 0
      by (unfold fexp, emin, Num.prec, Num.emax; lia).
    reflexivity. }
  unfold binary_round_aux. rewrite Hs. cbn [shr_m loc_of_shr_record round_nearest_even].
  rewrite Hs. reflexivity.
Qed.

Lemma to_Z_of_Z_safe z : 0 <= z < 2 ^ 53 -> Num.to_Z (Num.of_Z z) = Some z.
Proof.
  intros [H0 H1]. destruct z as [|p|p]; [reflexivity | | lia].
  pose proof (digits2_pos_bound p 53 ltac:(lia) H1) as Hd.
  destruct (Z.eq_dec (Zpos (digits2_pos p)) 53) as [E53|N53].
  { rewrite of_Z_pos_53 by exact E53. reflexivity. }
  rewrite of_Z_pos by lia. unfold Num.to_Z.
  destruct (Zpos (digits2_pos p) - 53) as [|q|q] eqn:E; try lia.
  replace (Z.to_pos (53 - Zpos (digits2_pos p))) with q by lia.
  rewrite Zpos_iter_xO, Z.land_ones by lia.
  rewrite Z.mod_mul by lia. simpl Z.eqb. cbv iota.
  rewrite <- Z.shiftl_mul_pow2 by lia.
  rewrite Z.shiftr_shiftl_l by lia. rewrite Z.sub_diag. reflexivity.
Qed.

Lemma eqb_to_Z x y : Num.eqb x y = true -> Num.to_Z x = Num.to_Z y.
Proof.
  unfold Num.eqb, SFeqb.
  destruct x as [s|s| |s m e], y as [s'|s'| |s' m' e']; simpl; intros H;
    try discriminate H; try reflexivity;
    try (destruct s; discriminate H); try (destruct s'; discriminate H);
    try (destruct s, s'; (discriminate H || reflexivity)).
  fold (Pos.compare m m') in H.
  destruct s, s'; try discriminate H;
    destruct (e ?= e')%Z eqn:Ee; try discriminate H;
    destruct (m ?= m')%positive eqn:Em; try discriminate H;
    apply Z.compare_eq in Ee; apply Pos.compare_eq in Em; subst; reflexivity.
Qed.

Lemma of_Z_not_nan z : Num.is_nan (Num.of_Z z) = false.
Proof.
  unfold Num.of_Z, binary_normalize.
  destruct z; [reflexivity | apply binary_round_not_nan..].
Qed.

Lemma eqb_of_Z a b :
  0 <= a < 2 ^ 53 -> 0 <= b < 2 ^ 53 ->
  Num.eqb (Num.of_Z a) (Num.of_Z b) = (a =? b).
Proof.
  intros Ha Hb. destruct (Z.eqb_spec a b) as [->|Hne].
  - apply eqb_refl, of_Z_not_nan.
  - destruct (Num.eqb (Num.of_Z a) (Num.of_Z b)) eqn:E; [|reflexivity].
    apply eqb_to_Z in E. rewrite !to_Z_of_Z_safe in E by assumption.
    congruence.
Qed.

Section More.
Variable App : Type.
Implicit Types w : world App.

(** *** Registration *)

Lemma on_result ev (cb : callback App) w :
  inherited ev = false ->
  on ev cb w
  = (Normal tt, set_listeners (<[ev := subscribers w ev ++ [cb]]> (listeners w)) w).
Proof.
  intros H. unfold on, subscribers. rewrite H.
  unfold bind, modify. destruct (listeners w !! ev) as [cbs|] eqn:E.
  - rewrite E. reflexivity.
  - cbn [listeners set_listeners]. rewrite lookup_insert_eq.
    cbn [set_listeners url gameName ws sess app next_loc trace listeners].
    rewrite insert_insert_eq. reflexivity.
Qed.

(** X1.  [on], for a name that is not inherited from
    [Object.prototype], returns normally and appends the callback to
    the callbacks of that event, after those registered before; the
    callbacks of every other event, the session, the socket, the
    application state and the trace are as before. *)
Theorem on_appends (ev : jsstring) (cb : callback App) (w : world App) :
  inherited ev = false ->
  fst (on ev cb w) = Normal tt /\
  subscribers (snd (on ev cb w)) ev = subscribers w ev ++ [cb] /\
  (forall ev', ev' <> ev ->
     subscribers (snd (on ev cb w)) ev' = subscribers w ev') /\
  sess (snd (on ev cb w)) = sess w /\
  ws (snd (on ev cb w)) = ws w /\
  app (snd (on ev cb w)) = app w /\
  trace (snd (on ev cb w)) = trace w.
Proof.
  intros H. rewrite (on_result ev cb w H). cbn [fst snd].
  split; [reflexivity|]. split.
  { unfold subscribers at 1. cbn [listeners set_listeners].
    rewrite lookup_insert_eq. reflexivity. }
  split; [|repeat split].
  intros ev' Hne. unfold subscribers. cbn [listeners set_listeners].
  rewrite lookup_insert_ne by congruence. reflexivity.
Qed.

(** X2.  A name that every object inherits ([toString], [constructor],
    [__proto__], ...) cannot be subscribed to: [on] throws a TypeError
    and leaves the client as it was, and [emit] of such a name throws a
    TypeError as well, calling nothing. *)
Theorem inherited_name_rejected
    (ev : jsstring) (cb : callback App) (args : list value) (w : world App) :
  inherited ev = true ->
  on ev cb w = (Throw TypeError, w) /\
  fst (emit ev args w) = Throw TypeError /\
  app (snd (emit ev args w)) = app w /\
  trace (snd (emit ev args w)) = trace w ++ [Emitted ev args (sess w)].
Proof.
  intros H. unfold on, emit, bind, modify. rewrite H. cbn [fst snd].
  repeat split.
Qed.

(** *** Emission *)

Lemma forEach_set_listeners ev args L (cbs : list (callback App)) : forall i w,
  forEach cbs i (invoke ev args) (set_listeners L w)
  = (fst (forEach cbs i (invoke ev args) w),
     set_listeners L (snd (forEach cbs i (invoke ev args) w))).
Proof.
  induction cbs as [|c0 cbs IH]; intros i w; [reflexivity|].
  cbn [forEach]. unfold bind, invoke.
  cbn [sess app observe set_listeners].
  destruct (c0 (sess w) args (app w)) as [[[]|e] a]; cbn [fst snd].
  - match goal with |- forEach _ _ _ ?x = _ =>
      change x with (set_listeners L (set_app a (observe (Called ev i) w))) end.
    apply IH.
  - reflexivity.
Qed.

Lemma forEach_app ev args (l1 l2 : list (callback App)) : forall i w,
  forEach (l1 ++ l2) i (invoke ev args) w
  = match forEach l1 i (invoke ev args) w with
    | (Normal _, w') => forEach l2 (i + length l1)%nat (invoke ev args) w'
    | (Throw e, w') => (Throw e, w')
    end.
Proof.
  induction l1 as [|c0 l1 IH]; intros i w.
  - cbn [List.app forEach ret length]. rewrite Nat.add_0_r. reflexivity.
  - cbn [List.app forEach length]. unfold bind.
    destruct (invoke ev args i c0 w) as [[[]|e] w1]; [|reflexivity].
    rewrite IH. replace (S i + length l1)%nat with (i + S (length l1))%nat by lia.
    reflexivity.
Qed.

Lemma emit_result ev args w :
  inherited ev = false ->
  emit ev args w
  = forEach (subscribers w ev) 0%nat (invoke ev args)
      (observe (Emitted ev args (sess w)) w).
Proof.
  intros H. unfold emit, bind, modify, subscribers. rewrite H.
  cbn [listeners observe]. destruct (listeners w !! ev); reflexivity.
Qed.

(** X3.  A callback registered last runs last: [emit] on the client
    after [on ev cb] does what [emit] did before the registration and
    then, if no earlier callback threw, calls [cb] on the application
    state the earlier callbacks left; what [cb] returns or throws is
    what [emit] returns or throws.  If an earlier callback threw, [cb]
    is not called. *)
Theorem emit_after_on
    (ev : jsstring) (cb : callback App) (args : list value) (w : world App) :
  inherited ev = false ->
  let before := emit ev args w in
  let after := emit ev args (snd (on ev cb w)) in
  match fst before with
  | Normal _ =>
      fst after = fst (cb (sess w) args (app (snd before))) /\
      app (snd after) = snd (cb (sess w) args (app (snd before))) /\
      trace (snd after)
      = trace (snd before) ++ [Called ev (length (subscribers w ev))]
  | Throw e =>
      fst after = Throw e /\
      app (snd after) = app (snd before) /\
      trace (snd after) = trace (snd before)
  end.
Proof.
  intros H before after. subst before after.
  rewrite (on_result ev cb w H). cbn [snd].
  set (L := <[ev := subscribers w ev ++ [cb]]> (listeners w)).
  assert (Hsub : subscribers (set_listeners L w) ev = subscribers w ev ++ [cb]).
  { unfold subscribers at 1. subst L. cbn [listeners set_listeners].
    rewrite lookup_insert_eq. reflexivity. }
  rewrite (emit_result ev args w H), (emit_result ev args (set_listeners L w) H).
  rewrite Hsub.
  change (observe (Emitted ev args (sess (set_listeners L w))) (set_listeners L w))
    with (set_listeners L (observe (Emitted ev args (sess w)) w)).
  rewrite forEach_set_listeners, forEach_app. cbn [fst snd].
  set (w0 := observe (Emitted ev args (sess w)) w).
  destruct (forEach_invoke App ev args (subscribers w ev) 0%nat w0)
    as (k & _ & (_&_&_&Hs&_&_) & _ & _).
  destruct (forEach (subscribers w ev) 0%nat (invoke ev args) w0) as [[[]|e] w1];
    cbn [fst snd] in *.
  - cbn [forEach]. unfold bind, invoke. cbn [sess app observe].
    rewrite Hs. change (sess w0) with (sess w).
    destruct (cb (sess w) args (app w1)) as [[[]|e] a]; cbn [fst snd];
      repeat split.
  - repeat split.
Qed.

(** X4.  When the callbacks registered for an event all return, each
    run from the application state the one before it left, [emit]
    calls all of them, in the order of their registration, and
    returns, the application being in the state the last one left; for
    an event nobody subscribed to this is a return without any call, in
    the same state. *)
Theorem emit_calls_all
    (ev : jsstring) (args : list value) (w : world App) (a' : App) :
  inherited ev = false ->
  after_all (sess w) args (subscribers w ev) (app w) = Some a' ->
  fst (emit ev args w) = Normal tt /\
  app (snd (emit ev args w)) = a' /\
  trace (snd (emit ev args w))
  = trace w ++ Emitted ev args (sess w)
               :: map (Called ev) (seq 0 (length (subscribers w ev))).
Proof.
  intros H Hok. rewrite emit_result by exact H.
  destruct (forEach_after_all App ev args (subscribers w ev) 0%nat
              (observe (Emitted ev args (sess w)) w) a' Hok) as (Hr & Ha & Ht).
  split; [exact Hr|]. split; [exact Ha|]. rewrite Ht. cbn [trace observe].
  rewrite <- app_assoc. reflexivity.
Qed.

(** *** Text messages of a known type *)

Lemma set_sess_same w : set_sess (sess w) w = w.
Proof. destruct w; reflexivity. Qed.

Ltac decide_labels :=
  repeat match goal with
  | |- context [strict_eq (VStr (js ?a)) (VStr (js ?b))] =>
      let r := eval vm_compute in (strict_eq (VStr (js a)) (VStr (js b))) in
      change (strict_eq (VStr (js a)) (VStr (js b))) with r
  end.

Ltac run_case :=
  cbn [bind ret modify set_playerId set_roomId set_ownerId set_isHost
       get_playerId fst snd sess set_sess playerId roomId ownerId isHost
       url gameName ws listeners app next_loc trace].

(** A case of the [switch] writes the session as [step_session] says
    and then emits the event the table gives, with the listed
    properties of the message as arguments. *)
Lemma cases_effect d w label event names :
  In (label, (event, names)) dispatch ->
  is_nullish d = false ->
  field d "type" = VStr (js label) ->
  switch (field d "type") (cases d) w
  = emit (js event) (map (field d) names) (set_sess (step_session (sess w) d) w).
Proof.
  intros Hin Hd Ht. unfold step_session, is_type. rewrite Ht.
  unfold dispatch in Hin. cbn [In] in Hin.
  repeat (destruct Hin as [Hin|Hin];
    [ injection Hin as <- <- <-;
      unfold switch, cases; cbn [find fst snd]; decide_labels; cbv iota;
      repeat first [rewrite bind_prop by exact Hd | progress run_case];
      cbn [map]; rewrite ?session_eta, ?set_sess_same; reflexivity | ]).
  destruct Hin.
Qed.

Lemma dispatch_events_not_inherited :
  Forall (fun x => inherited (js (fst (snd x))) = false) dispatch.
Proof. repeat constructor. Qed.

Lemma dispatch_covers_cases d :
  map fst (cases (App:=App) d) = map fst dispatch.
Proof. reflexivity. Qed.

Lemma field_type_object d label : field d "type" = VStr (js label) -> is_nullish d = false.
Proof. destruct d; simpl; congruence. Qed.


(** *** What changes the session *)

Lemma step_session_other s d :
  (forall label, In label mutating -> is_type d label = false) ->
  step_session s d = s.
Proof.
  intros H. unfold step_session.
  rewrite !H by (unfold mutating; simpl; tauto). reflexivity.
Qed.

(** X7.  Only a close and the six types [assignId], [roomCreated],
    [roomJoined], [leftRoom], [makeHost] and [reassignedHost] can change
    the session: after any other notification -- open, error, a binary
    frame, malformed text, JSON of any other type -- it is what it was. *)
Theorem session_changes_only_by
    (w : world App) (n : notification) :
  sess (deliver w n) <> sess w ->
  n = Close \/
  exists text d nx label,
    n = Message (Text text) /\ JSON.parse text (next_loc w) = Some (d, nx) /\
    In label mutating /\ is_type d label = true.
Proof.
  rewrite deliver_session. unfold next_session.
  destruct n as [| | |[text|buffer]]; try congruence; [left; reflexivity|].
  destruct (JSON.parse text (next_loc w)) as [[d nx]|] eqn:E; [|congruence].
  intros H. right. exists text, d, nx.
  assert (Hex : exists label, In label mutating /\ is_type d label = true).
  { destruct (existsb (is_type d) mutating) eqn:Eb.
    - apply existsb_exists in Eb. exact Eb.
    - exfalso. apply H, step_session_other. intros label Hin.
      destruct (is_type d label) eqn:El; [|reflexivity].
      assert (existsb (is_type d) mutating = true)
        by (apply existsb_exists; eauto).
      congruence. }
  destruct Hex as (label & Hin & Hl). exists label. auto.
Qed.

(** X8.  The client's own id is written by [assignId] alone: apart
    from a close, which resets it, no notification -- creating, joining
    or leaving a room, a change of host -- changes [playerId]. *)
Theorem playerId_changes_only_by
    (w : world App) (n : notification) :
  playerId (sess (deliver w n)) <> playerId (sess w) ->
  n = Close \/
  exists text d nx,
    n = Message (Text text) /\ JSON.parse text (next_loc w) = Some (d, nx) /\
    is_type d "assignId" = true.
Proof.
  rewrite deliver_session. unfold next_session.
  destruct n as [| | |[text|buffer]]; try congruence; [left; reflexivity|].
  destruct (JSON.parse text (next_loc w)) as [[d nx]|] eqn:E; [|congruence].
  intros H. right. exists text, d, nx.
  split; [reflexivity|]. split; [exact E|].
  unfold step_session in H.
  destruct (is_type d "assignId"); [reflexivity|].
  exfalso. apply H.
  repeat match goal with
         | |- context [if is_type d ?l then _ else _] => destruct (is_type d l)
         end; reflexivity.
Qed.


(** *** What can leave the handlers *)

Lemma quiet_listeners w w' : listeners w' = listeners w -> quiet w -> quiet w'.
Proof. unfold quiet. intros -> H. exact H. Qed.

Lemma emit_quiet ev args w :
  quiet w -> inherited ev = false -> fst (emit ev args w) = Normal tt.
Proof.
  intros Hq Hi. rewrite emit_result by exact Hi.
  apply forEach_all_return. intros c a Hin.
  unfold subscribers in Hin.
  destruct (listeners w !! ev) as [cbs|] eqn:E; [|destruct Hin].
  eapply Hq; eauto.
Qed.

(** The parser's value is never [undefined]. *)

Lemma complete_defined v stk nx st :
  v <> VUndefined -> JSON.complete v stk nx = Some st -> pstate_defined st.
Proof.
  intros Hv. unfold JSON.complete, pstate_defined.
  destruct stk as [|[elems|fields [k|]] stk']; intros H;
    try discriminate; injection H as <-; simpl; congruence.
Qed.

Lemma parse_step_defined st t st' :
  JSON.parse_step st t = Some st' -> pstate_defined st'.
Proof.
  unfold JSON.parse_step, JSON.value_step, JSON.key_step, JSON.close_array,
    JSON.close_object.
  intros H.
  repeat match type of H with
         | context [match ?x with _ => _ end] => destruct x; try discriminate H
         end;
    first [ eapply complete_defined; [|exact H]; discriminate
          | injection H as <-; unfold pstate_defined; simpl; congruence ].
Qed.

Lemma parse_tokens_defined ts : forall st st',
  pstate_defined st -> JSON.parse_tokens st ts = Some st' -> pstate_defined st'.
Proof.
  induction ts as [|t ts IH]; intros st st' Hst; simpl.
  - intros H. injection H as <-. exact Hst.
  - destruct (JSON.parse_step st t) as [st1|] eqn:E; [|discriminate].
    apply IH. eapply parse_step_defined, E.
Qed.

Lemma parse_defined text nx d nx' :
  JSON.parse text nx = Some (d, nx') -> d <> VUndefined.
Proof.
  unfold JSON.parse.
  destruct (JSON.lex JSON.LStart text) as [ts|]; [|discriminate].
  destruct (JSON.parse_tokens _ ts) as [st|] eqn:E; [|discriminate].
  apply parse_tokens_defined in E; [|unfold pstate_defined; simpl; discriminate].
  unfold pstate_defined in E.
  destruct (JSON.mode st); try discriminate.
  intros H. injection H as <- _. congruence.
Qed.

Lemma switch_quiet d w :
  quiet w -> is_nullish d = false ->
  fst (switch (field d "type") (cases d) w) = Normal tt.
Proof.
  intros Hq Hd.
  apply (switch_elim App (fun r => fst r = Normal tt)); [|reflexivity].
  intros label body Hin Ht.
  assert (Hl : In label (map fst dispatch)).
  { rewrite <- (dispatch_covers_cases d). apply in_map_iff.
    exists (label, body). auto. }
  apply in_map_iff in Hl as [[label' [event names]] [Hfst Hd']].
  simpl in Hfst. subst label'.
  pose proof (cases_effect d w label event names Hd' Hd Ht) as Heff.
  unfold switch in Heff.
  match type of Heff with
  | context [find ?f ?cs] => destruct (find f cs) as [[l' b']|] eqn:Ef
  end.
  - (* the case found is the case [label] names *)
    assert (Hb : body w = b' w).
    { apply find_some in Ef as [Hin' Heq']. simpl in Heq'.
      rewrite Ht in Heq'. apply strict_eq_str in Heq'.
      injection Heq' as Heq'.
      clear - Hin Hin' Heq'. simpl in Hin, Hin'.
      repeat (destruct Hin as [Hin|Hin];
              [ injection Hin as <- <-;
                repeat (destruct Hin' as [Hin'|Hin'];
                        [ injection Hin' as <- <-;
                          first [reflexivity | vm_compute in Heq'; discriminate Heq'] | ]);
                destruct Hin' | ]).
      destruct Hin. }
    rewrite Hb. simpl in Heff. rewrite Heff.
    apply emit_quiet.
    + eapply quiet_listeners; [|exact Hq]. reflexivity.
    + pose proof dispatch_events_not_inherited as Hf.
      rewrite List.Forall_forall in Hf. apply (Hf _ Hd').
  - exfalso. apply find_none with (x := (label, body)) in Ef; [|exact Hin].
    simpl in Ef. rewrite Ht in Ef. simpl in Ef.
    apply bool_decide_eq_false in Ef. auto.
Qed.

(** X9.  As long as the registered callbacks return, a throw leaves a
    transport handler in two cases only, and in these always: a binary
    frame shorter than four bytes (RangeError), and a text frame whose
    JSON value is [null] (TypeError).  Open, close and error
    notifications, malformed text and every other JSON value -- numbers,
    strings, arrays, objects of any type -- are handled without a
    throw. *)
Theorem handler_throws_exactly_when
    (w : world App) (n : notification) (e : exn) :
  quiet w ->
  fst (handler n w) = Throw e <->
  (exists buffer,
     n = Message (Binary buffer) /\ (length buffer < 4)%nat /\ e = RangeError) \/
  (exists text nx,
     n = Message (Text text) /\
     JSON.parse text (next_loc w) = Some (VNull, nx) /\ e = TypeError).
Proof.
  intros Hq. split.
  - destruct n as [| | |[text|buffer]]; cbn [handler].
    + unfold onopen. rewrite emit_quiet by (exact Hq || reflexivity). discriminate.
    + unfold onclose.
      cbn [bind ret modify set_playerId set_roomId set_ownerId set_isHost].
      rewrite emit_quiet; [discriminate | | reflexivity].
      eapply quiet_listeners; [|exact Hq]. reflexivity.
    + discriminate.
    + destruct (JSON.parse text (next_loc w)) as [[d nx]|] eqn:E.
      * rewrite (handle_parsed App _ _ _ _ E).
        destruct (is_nullish d) eqn:Hd.
        -- destruct d; try discriminate Hd.
           ++ exfalso. eapply parse_defined; eauto.
           ++ cbn [bind prop throw fst]. intros H. injection H as <-.
              right. exists text, nx. auto.
        -- rewrite bind_prop by exact Hd.
           rewrite switch_quiet; [discriminate | | exact Hd].
           eapply quiet_listeners; [|exact Hq]. reflexivity.
      * rewrite handle_malformed by exact E. discriminate.
    + destruct buffer as [|b0 [|b1 [|b2 [|b3 rest]]]];
        try (cbn [_handleMessage getUint32 bind throw fst];
             intros H; injection H as <-; left; eexists; repeat split; simpl; lia).
      unfold _handleMessage, getUint32. cbn [bind ret slice fresh].
      rewrite emit_quiet; [discriminate | | reflexivity].
      eapply quiet_listeners; [|exact Hq]. reflexivity.
  - intros [(buffer & -> & Hlen & ->)|(text & nx & -> & Hp & ->)]; cbn [handler].
    + destruct buffer as [|b0 [|b1 [|b2 [|b3 rest]]]]; try reflexivity.
      simpl in Hlen. lia.
    + rewrite (handle_parsed App _ _ _ _ Hp). reflexivity.
Qed.


(** *** Binary frames of any content *)

Lemma byte_of_to_N b : byte_of_N (Byte.to_N b) = b.
Proof.
  unfold byte_of_N.
  pose proof (Byte.to_N_bounded b) as Hb.
  rewrite N.mod_small by lia. rewrite Byte.of_to_N. reflexivity.
Qed.

Lemma sender_of_bound b0 b1 b2 b3 : (sender_of b0 b1 b2 b3 < 4294967296)%N.
Proof.
  unfold sender_of.
  pose proof (Byte.to_N_bounded b0). pose proof (Byte.to_N_bounded b1).
  pose proof (Byte.to_N_bounded b2). pose proof (Byte.to_N_bounded b3). lia.
Qed.

Lemma uint32_be_sender_of b0 b1 b2 b3 :
  uint32_be (sender_of b0 b1 b2 b3) = [b0; b1; b2; b3].
Proof.
  pose proof (Byte.to_N_bounded b0) as H0. pose proof (Byte.to_N_bounded b1) as H1.
  pose proof (Byte.to_N_bounded b2) as H2. pose proof (Byte.to_N_bounded b3) as H3.
  unfold uint32_be, sender_of.
  set (a := Byte.to_N b0) in *. set (b := Byte.to_N b1) in *.
  set (c := Byte.to_N b2) in *. set (d := Byte.to_N b3) in *.
  assert (E3 : ((((a * 256 + b) * 256 + c) * 256 + d) / 256 = (a * 256 + b) * 256 + c)%N).
  { symmetry. apply N.div_unique with (r := d); lia. }
  assert (E2 : ((((a * 256 + b) * 256 + c) * 256 + d) / 65536 = a * 256 + b)%N).
  { symmetry. apply N.div_unique with (r := (c * 256 + d)%N); lia. }
  assert (E1 : ((((a * 256 + b) * 256 + c) * 256 + d) / 16777216 = a)%N).
  { symmetry. apply N.div_unique with (r := ((b * 256 + c) * 256 + d)%N); lia. }
  rewrite E1, E2, E3.
  unfold byte_of_N at 2 3 4.
  replace ((((a * 256 + b) * 256 + c) * 256 + d) mod 256)%N with d
    by (apply N.mod_unique with (q := ((a * 256 + b) * 256 + c)%N); lia).
  replace (((a * 256 + b) * 256 + c) mod 256)%N with c
    by (apply N.mod_unique with (q := (a * 256 + b)%N); lia).
  replace ((a * 256 + b) mod 256)%N with b
    by (apply N.mod_unique with (q := a); lia).
  subst a b c d. rewrite byte_of_to_N, !Byte.of_to_N. reflexivity.
Qed.


(** *** The host after a change of host *)

Lemma playerId_reflexive_next w n :
  reflexive (playerId (sess w)) -> reflexive (playerId (sess (deliver w n))).
Proof.
  intros R. rewrite deliver_session. unfold next_session.
  destruct n as [| | |[text|buffer]]; try exact R; [reflexivity|].
  destruct (JSON.parse text (next_loc w)) as [[d nx]|] eqn:E; [|exact R].
  unfold step_session.
  destruct (is_type d "assignId").
  { simpl. eapply field_reflexive, parse_reflexive_fields, E. }
  repeat match goal with
         | |- context [if is_type d ?l then _ else _] => destruct (is_type d l)
         end; exact R.
Qed.

Lemma playerId_reflexive_run ns : forall w,
  reflexive (playerId (sess w)) -> reflexive (playerId (sess (run w ns))).
Proof.
  induction ns as [|n ns IH]; intros w R; [exact R|].
  simpl. apply IH, playerId_reflexive_next, R.
Qed.

(** X11.  Whatever was received before, consistent or not, right after
    a [makeHost] or a [reassignedHost] the session satisfies
    [isHost == (ownerId === playerId)]: these two cases set [isHost]
    and [ownerId] together, from the client's own id. *)
Theorem host_equation_after_host_change
    (w0 : world App) (ns : list notification)
    (text : jsstring) (d : value) (nx : loc) :
  sess w0 = initial_session ->
  JSON.parse text (next_loc (run w0 ns)) = Some (d, nx) ->
  is_type d "makeHost" = true \/ is_type d "reassignedHost" = true ->
  host_equation (sess (deliver (run w0 ns) (Message (Text text)))).
Proof.
  intros H0 Hp Hty.
  assert (R : reflexive (playerId (sess (run w0 ns)))).
  { apply playerId_reflexive_run. rewrite H0. reflexivity. }
  rewrite deliver_session. unfold next_session. rewrite Hp.
  set (s := sess (run w0 ns)) in *.
  assert (Hne : forall a b, is_type d a = true -> js a <> js b -> is_type d b = false).
  { intros a b Ha Hab. unfold is_type in *. apply strict_eq_str in Ha.
    rewrite Ha. simpl. apply bool_decide_eq_false. congruence. }
  unfold step_session, host_equation.
  destruct Hty as [Hty|Hty].
  - rewrite (Hne _ "assignId"%string Hty), (Hne _ "roomCreated"%string Hty),
      (Hne _ "roomJoined"%string Hty), (Hne _ "leftRoom"%string Hty), Hty
      by (vm_compute; discriminate).
    simpl. symmetry. exact R.
  - rewrite (Hne _ "assignId"%string Hty), (Hne _ "roomCreated"%string Hty),
      (Hne _ "roomJoined"%string Hty), (Hne _ "leftRoom"%string Hty),
      (Hne _ "makeHost"%string Hty), Hty
      by (vm_compute; discriminate).
    simpl. apply strict_eq_sym.
Qed.

(** *** What inbound traffic never touches *)

Lemma handler_keeps n w :
  ws (snd (handler n w)) = ws w /\
  listeners (snd (handler n w)) = listeners w /\
  gameName (snd (handler n w)) = gameName w /\
  url (snd (handler n w)) = url w.
Proof.
  assert (Hemit : forall ev args w1,
    ws w1 = ws w -> listeners w1 = listeners w -> gameName w1 = gameName w ->
    url w1 = url w ->
    ws (snd (emit ev args w1)) = ws w /\
    listeners (snd (emit ev args w1)) = listeners w /\
    gameName (snd (emit ev args w1)) = gameName w /\
    url (snd (emit ev args w1)) = url w).
  { intros ev args w1 H1 H2 H3 H4.
    destruct (emit_spec App ev args w1) as (k & (?&?&?&?&?&?) & _).
    repeat split; congruence. }
  destruct n as [| | |[text|buffer]]; cbn [handler].
  - apply Hemit; reflexivity.
  - unfold onclose.
    cbn [bind ret modify set_playerId set_roomId set_ownerId set_isHost].
    apply Hemit; reflexivity.
  - repeat split.
  - destruct (JSON.parse text (next_loc w)) as [[d nx]|] eqn:E.
    + rewrite (handle_parsed App _ _ _ _ E).
      destruct (is_nullish d) eqn:Hd.
      * destruct d; try discriminate Hd; repeat split.
      * rewrite bind_prop by exact Hd.
        apply (switch_elim App (fun r =>
          ws (snd r) = ws w /\ listeners (snd r) = listeners w /\
          gameName (snd r) = gameName w /\ url (snd r) = url w)); [|repeat split].
        intros label body Hin Ht. simpl in Hin.
        repeat (destruct Hin as [Hin|Hin];
          [ injection Hin as <- <-;
            repeat first [rewrite bind_prop by exact Hd | progress run_case];
            apply Hemit; reflexivity | ]).
        destruct Hin.
    + rewrite handle_malformed by exact E. repeat split.
  - unfold _handleMessage, getUint32.
    destruct buffer as [|b0 [|b1 [|b2 [|b3 rest]]]];
      try (repeat split; reflexivity).
    cbn [bind ret slice fresh]. apply Hemit; reflexivity.
Qed.

(** X12.  Handling a notification never sends anything and never
    changes who is subscribed: after any handler the socket with its
    outbox and the table of callbacks are what they were -- frames go
    out through the API calls only, callbacks come in through [on]
    only. *)
Theorem inbound_never_sends_or_subscribes
    (w : world App) (n : notification) :
  ws (snd (handler n w)) = ws w /\
  (forall ev, subscribers (snd (handler n w)) ev = subscribers w ev).
Proof.
  destruct (handler_keeps n w) as (Hw & Hl & _).
  split; [exact Hw|]. intros ev. unfold subscribers. rewrite Hl. reflexivity.
Qed.


(** *** Sending on an open socket *)

Lemma is_open_socket w :
  is_open w = true -> exists out, ws w = Some {| readyState := OPEN; outbox := out |}.
Proof.
  unfold is_open. destruct (ws w) as [[[] out]|]; try discriminate. eauto.
Qed.

Lemma send_open obj w out :
  ws w = Some {| readyState := OPEN; outbox := out |} ->
  _send obj w
  = (Normal tt, set_ws (Some {| readyState := OPEN; outbox := out ++ [SentText obj] |}) w).
Proof.
  intros H. unfold _send, is_open, ws_send. rewrite H. reflexivity.
Qed.

(** X13.  On an open socket every call of the outbound API whose
    [tags], if it has any, are omitted or iterable returns normally and
    hands exactly one frame to the socket, behind the frames sent
    before: for the ten JSON calls the text of an object whose [type]
    is the call's wire name ([addTag] goes out as [setRoomTag],
    [removeTag] as [clearRoomTag]), for [sendBinary] the caller's
    buffer as it is, with no sender id put in front.  With other tags
    [createRoom] and [listRooms] throw a TypeError and the socket is as
    it was.  Either way session, callbacks, application state and
    trace are not touched.  The arguments are values of this model:
    trees of plain data, which [JSON.stringify] accepts. *)
Theorem call_sends_one_frame (c : api_call) (w : world App) (out : list sent) :
  ws w = Some {| readyState := OPEN; outbox := out |} ->
  (if spreadable c
   then fst (call c w) = Normal tt /\
        exists x,
          ws (snd (call c w)) = Some {| readyState := OPEN; outbox := out ++ [x] |} /\
          match wire_type c with
          | Some t => exists obj, x = SentText obj /\ field obj "type" = VStr (js t)
          | None => exists buffer, c = SendBinary buffer /\ x = SentData buffer
          end
   else fst (call c w) = Throw TypeError /\ ws (snd (call c w)) = ws w) /\
  sess (snd (call c w)) = sess w /\
  listeners (snd (call c w)) = listeners w /\
  app (snd (call c w)) = app w /\
  trace (snd (call c w)) = trace w.
Proof.
  intros H.
  destruct c; unfold call, spreadable, tag_list, createRoom, joinRoom, leaveRoom,
    listRooms, updateMeta, addTag, removeTag, sendRelay, tellOwner, tellPlayer, spread;
    try (cbn [bind ret new_object new_array fresh game_tag set_next_loc next_loc];
         rewrite (send_open _ _ out) by exact H;
         cbn [fst snd ws set_ws sess listeners app trace set_next_loc];
         split; [|repeat split]; split; [reflexivity|];
         eexists; split; [reflexivity|]; cbn [wire_type];
         eexists; split; [reflexivity|]; vm_compute; reflexivity).
  - destruct tags, metaData;
      cbn [bind ret throw new_object new_array fresh game_tag set_next_loc next_loc
           iterate];
      rewrite ?(send_open _ _ out) by exact H;
      cbn [fst snd ws set_ws sess listeners app trace set_next_loc];
      (split; [|repeat split]);
      first [ split; reflexivity
            | split; [reflexivity|];
              eexists; split; [reflexivity|]; cbn [wire_type];
              eexists; split; [reflexivity|]; reflexivity ].
  - destruct tags;
      cbn [bind ret throw new_object new_array fresh game_tag set_next_loc next_loc
           iterate];
      rewrite ?(send_open _ _ out) by exact H;
      cbn [fst snd ws set_ws sess listeners app trace set_next_loc];
      (split; [|repeat split]);
      first [ split; reflexivity
            | split; [reflexivity|];
              eexists; split; [reflexivity|]; cbn [wire_type];
              eexists; split; [reflexivity|]; reflexivity ].
  - unfold sendBinary, is_open, ws_send. rewrite H.
    cbn [negb fst snd ws set_ws sess listeners app trace].
    split; [|repeat split]. split; [reflexivity|].
    eexists. split; [reflexivity|]. cbn [wire_type]. eauto.
Qed.

(** X14.  The room [createRoom] asks for always carries the game's
    tag: on an open socket the object sent has, as [tags], the caller's
    tags -- none when the argument is omitted, the elements of an
    array, the code points of a string -- followed by [game:] and the
    client's game name, followed by [private] exactly when [isPrivate]
    is truthy; [maxClients] is the caller's, or 8 when omitted;
    [metaData] is the caller's when given. *)
Theorem createRoom_frame
    (tags maxClients isPrivate metaData : value) (elems : list value)
    (w : world App) (out : list sent) :
  tag_list tags = Some elems ->
  ws w = Some {| readyState := OPEN; outbox := out |} ->
  exists l l' md,
    ws (snd (createRoom App tags maxClients isPrivate metaData w))
    = Some {| readyState := OPEN;
              outbox := out ++
                [SentText (VObj l
                   [ (js "type", VStr (js "createRoom"));
                     (js "tags",
                       VArr l' (elems
                                ++ [VStr (js "game:" ++ gameName w)]
                                ++ (if truthy isPrivate
                                    then [VStr (js "private")] else [])));
                     (js "maxClients",
                       match maxClients with
                       | VUndefined => VNum (Num.of_Z 8)
                       | _ => maxClients
                       end);
                     (js "metaData", md) ])] |} /\
    (metaData <> VUndefined -> md = metaData) /\
    (metaData = VUndefined -> exists l0, md = VObj l0 []).
Proof.
  intros Htags H.
  assert (Ht : truthy (or_default isPrivate (VBool false)) = truthy isPrivate)
    by (destruct isPrivate; reflexivity).
  unfold createRoom, spread. rewrite Ht.
  destruct tags; cbn [tag_list iterate] in Htags; try discriminate Htags;
    inversion Htags; subst elems;
    destruct metaData;
    cbn [bind ret new_object new_array fresh game_tag set_next_loc next_loc
         gameName map fst snd iterate];
    rewrite (send_open _ _ out) by exact H; cbn [snd ws set_ws];
    do 3 eexists; (split; [reflexivity|]);
    (split; [intros Hm; first [reflexivity | congruence]
            | intros Hm; first [discriminate Hm | eexists; reflexivity]]).
Qed.

(** X15.  [listRooms] asks for the rooms of this game only: the
    object sent has, as [tags], the caller's tags -- none when the
    argument is omitted, the elements of an array, the code points of
    a string -- followed by [game:] and the client's game name. *)
Theorem listRooms_frame
    (tags : value) (elems : list value) (w : world App) (out : list sent) :
  tag_list tags = Some elems ->
  ws w = Some {| readyState := OPEN; outbox := out |} ->
  exists l l',
    ws (snd (listRooms App tags w))
    = Some {| readyState := OPEN;
              outbox := out ++
                [SentText (VObj l
                   [ (js "type", VStr (js "listRooms"));
                     (js "tags",
                       VArr l' (elems
                                ++ [VStr (js "game:" ++ gameName w)])) ])] |}.
Proof.
  intros Htags H. unfold listRooms, spread.
  destruct tags; cbn [tag_list iterate] in Htags; try discriminate Htags;
    inversion Htags; subst elems;
    cbn [bind ret new_object new_array fresh game_tag set_next_loc next_loc
         gameName map fst snd iterate];
    rewrite (send_open _ _ out) by exact H; cbn [snd ws set_ws];
    do 2 eexists; reflexivity.
Qed.

(** *** When the gate is shut *)

Lemma handler_ws n w : ws (snd (handler n w)) = ws w.
Proof. apply handler_keeps. Qed.

Lemma run_ws (ns : list notification) : forall w : world App, ws (run w ns) = ws w.
Proof.
  unfold run. induction ns as [|n ns IH]; intros w; [reflexivity|].
  cbn [fold_left]. rewrite IH. unfold deliver. apply handler_ws.
Qed.



(** *** Hosts with integer ids *)

(** X17.  With integer ids (below 2^53, where numbers are exact) the
    host is found by comparing integers: after a [reassignedHost] that
    names host [n], a client whose id is [p] has [ownerId] [n] and is
    host exactly when [p = n]. *)
Theorem reassignedHost_integer_ids
    (w : world App) (text : jsstring) (d : value) (nx : loc) (p n : Z) :
  0 <= p < 2 ^ 53 -> 0 <= n < 2 ^ 53 ->
  playerId (sess w) = VNum (Num.of_Z p) ->
  JSON.parse text (next_loc w) = Some (d, nx) ->
  is_type d "reassignedHost" = true ->
  field d "newHostId" = VNum (Num.of_Z n) ->
  let s := sess (deliver w (Message (Text text))) in
  ownerId s = VNum (Num.of_Z n) /\ isHost s = (p =? n) /\
  playerId s = VNum (Num.of_Z p).
Proof.
  intros Hp Hn Hpid Hparse Hty Hnew s. subst s.
  rewrite deliver_session. unfold next_session. rewrite Hparse.
  assert (Hne : forall b, js "reassignedHost" <> js b -> is_type d b = false).
  { intros b Hab. unfold is_type in *. apply strict_eq_str in Hty.
    rewrite Hty. simpl. apply bool_decide_eq_false. congruence. }
  unfold step_session.
  rewrite (Hne "assignId"%string), (Hne "roomCreated"%string),
    (Hne "roomJoined"%string), (Hne "leftRoom"%string), (Hne "makeHost"%string), Hty
    by (vm_compute; discriminate).
  cbn [ownerId isHost playerId]. rewrite Hnew, Hpid. cbn [strict_eq].
  rewrite eqb_of_Z by assumption. auto.
Qed.


(** *** The events of a notification *)

(** X18.  Handling one notification emits at most one event, and only
    one of the nineteen the client knows ([connected], [disconnected],
    [binary] and those of the sixteen message types): what a handler
    adds to the trace is nothing, or the one warning of the error
    handler, or one emission followed by calls of that event's
    callbacks alone. *)
Theorem one_known_event_per_notification
    (w : world App) (n : notification) :
  trace (snd (handler n w)) = trace w \/
  trace (snd (handler n w)) = trace w ++ [Warned (js "WebSocket error")] \/
  exists name args s k,
    In name vocabulary /\
    trace (snd (handler n w))
    = trace w ++ Emitted (js name) args s :: map (Called (js name)) (seq 0 k).
Proof.
  assert (Hemit : forall name args w1,
    In name vocabulary -> trace w1 = trace w ->
    exists name' args' s k,
      In name' vocabulary /\
      trace (snd (emit (js name) args w1))
      = trace w ++ Emitted (js name') args' s :: map (Called (js name')) (seq 0 k)).
  { intros name args w1 Hin Ht.
    destruct (emit_spec App (js name) args w1) as (k & _ & Htr).
    exists name, args, (sess w1), k. rewrite Htr, Ht. auto. }
  destruct n as [| | |[text|buffer]]; cbn [handler].
  - right; right. apply Hemit; [simpl; tauto | reflexivity].
  - right; right. unfold onclose.
    cbn [bind ret modify set_playerId set_roomId set_ownerId set_isHost].
    apply Hemit; [simpl; tauto | reflexivity].
  - right; left. reflexivity.
  - destruct (JSON.parse text (next_loc w)) as [[d nx]|] eqn:E.
    + rewrite (handle_parsed App _ _ _ _ E).
      destruct (is_nullish d) eqn:Hd.
      * left. destruct d; try discriminate Hd; reflexivity.
      * rewrite bind_prop by exact Hd.
        apply (switch_elim App (fun r =>
          trace (snd r) = trace w \/
          trace (snd r) = trace w ++ [Warned (js "WebSocket error")] \/
          exists name args s k,
            In name vocabulary /\
            trace (snd r)
            = trace w ++ Emitted (js name) args s :: map (Called (js name)) (seq 0 k)));
          [|left; reflexivity].
        intros label body Hin Ht. right; right. simpl in Hin.
        repeat (destruct Hin as [Hin|Hin];
          [ injection Hin as <- <-;
            repeat first [rewrite bind_prop by exact Hd | progress run_case];
            apply Hemit; [simpl; tauto | reflexivity] | ]).
        destruct Hin.
    + left. rewrite handle_malformed by exact E. reflexivity.
  - unfold _handleMessage, getUint32.
    destruct buffer as [|b0 [|b1 [|b2 [|b3 rest]]]]; try (left; reflexivity).
    right; right. cbn [bind ret slice fresh]. apply Hemit; [simpl; tauto | reflexivity].
Qed.

End More.

(** * The further properties at concrete inputs *)

Lemma on_appends_witness :
  inherited (js "evt") = false /\
  fst (on (js "evt") (note 3) noting_client) = Normal tt /\
  subscribers (snd (on (js "evt") (note 3) noting_client)) (js "evt")
  = subscribers noting_client (js "evt") ++ [note 3] /\
  (forall ev', ev' <> js "evt" ->
     subscribers (snd (on (js "evt") (note 3) noting_client)) ev'
     = subscribers noting_client ev') /\
  sess (snd (on (js "evt") (note 3) noting_client)) = sess noting_client /\
  ws (snd (on (js "evt") (note 3) noting_client)) = ws noting_client /\
  app (snd (on (js "evt") (note 3) noting_client)) = app noting_client /\
  trace (snd (on (js "evt") (note 3) noting_client)) = trace noting_client.
Proof.
  split; [vm_compute; reflexivity|].
  apply (on_appends (list nat) (js "evt") (note 3) noting_client).
  vm_compute. reflexivity.
Defined.

Lemma inherited_name_rejected_witness :
  inherited (js "toString") = true /\
  on (js "toString") (note 0) noting_client = (Throw TypeError, noting_client) /\
  fst (emit (js "toString") [] noting_client) = Throw TypeError /\
  app (snd (emit (js "toString") [] noting_client)) = app noting_client /\
  trace (snd (emit (js "toString") [] noting_client))
  = trace noting_client ++ [Emitted (js "toString") [] (sess noting_client)].
Proof.
  split; [vm_compute; reflexivity|].
  apply (inherited_name_rejected (list nat) (js "toString") (note 0) [] noting_client).
  vm_compute. reflexivity.
Defined.

Lemma emit_after_on_witness :
  inherited (js "evt") = false /\
  let before := emit (js "evt") [] polite_client in
  let after := emit (js "evt") [] (snd (on (js "evt") thrower polite_client)) in
  match fst before with
  | Normal _ =>
      fst after = fst (thrower (sess polite_client) [] (app (snd before))) /\
      app (snd after) = snd (thrower (sess polite_client) [] (app (snd before))) /\
      trace (snd after)
      = trace (snd before)
        ++ [Called (js "evt") (length (subscribers polite_client (js "evt")))]
  | Throw e =>
      fst after = Throw e /\
      app (snd after) = app (snd before) /\
      trace (snd after) = trace (snd before)
  end.
Proof.
  split; [vm_compute; reflexivity|].
  apply (emit_after_on (list nat) (js "evt") thrower [] polite_client).
  vm_compute. reflexivity.
Defined.

Lemma emit_calls_all_witness :
  inherited (js "evt") = false /\
  subscribers early_client (js "evt") = [picky; note 1] /\
  after_all (sess early_client) [] (subscribers early_client (js "evt"))
            (app early_client) = Some [1%nat] /\
  fst (emit (js "evt") [] early_client) = Normal tt /\
  app (snd (emit (js "evt") [] early_client)) = [1%nat] /\
  trace (snd (emit (js "evt") [] early_client))
  = trace early_client
    ++ Emitted (js "evt") [] (sess early_client)
       :: map (Called (js "evt"))
              (seq 0 (length (subscribers early_client (js "evt")))).
Proof.
  split; [vm_compute; reflexivity|]. split; [vm_compute; reflexivity|].
  split; [vm_compute; reflexivity|].
  apply (emit_calls_all (list nat) (js "evt") [] early_client [1%nat]);
    vm_compute; reflexivity.
Defined.


Lemma session_changes_only_by_witness :
  let n := Message (Text (jq "{'type':'assignId','playerId':7}")) in
  sess (deliver fresh_client n) <> sess fresh_client /\
  (n = Close \/
   exists text d nx label,
     n = Message (Text text) /\
     JSON.parse text (next_loc fresh_client) = Some (d, nx) /\
     In label mutating /\ is_type d label = true).
Proof.
  intros n.
  assert (H : sess (deliver fresh_client n) <> sess fresh_client)
    by (vm_compute; discriminate).
  split; [exact H|].
  exact (session_changes_only_by unit fresh_client n H).
Defined.

Lemma playerId_changes_only_by_witness :
  let n := Message (Text (jq "{'type':'assignId','playerId':7}")) in
  playerId (sess (deliver fresh_client n)) <> playerId (sess fresh_client) /\
  (n = Close \/
   exists text d nx,
     n = Message (Text text) /\
     JSON.parse text (next_loc fresh_client) = Some (d, nx) /\
     is_type d "assignId" = true).
Proof.
  intros n.
  assert (H : playerId (sess (deliver fresh_client n)) <> playerId (sess fresh_client))
    by (vm_compute; discriminate).
  split; [exact H|].
  exact (playerId_changes_only_by unit fresh_client n H).
Defined.

Lemma handler_throws_exactly_when_witness :
  quiet fresh_client /\
  (fst (handler (Message (Text (js "null"))) fresh_client) = Throw TypeError <->
   (exists buffer,
      Message (Text (js "null")) = Message (Binary buffer) /\
      (length buffer < 4)%nat /\ TypeError = RangeError) \/
   (exists text nx,
      Message (Text (js "null")) = Message (Text text) /\
      JSON.parse text (next_loc fresh_client) = Some (VNull, nx) /\
      TypeError = TypeError)).
Proof.
  assert (Hq : quiet fresh_client).
  { intros ev cbs c s args a Hl. cbn in Hl. rewrite lookup_empty in Hl.
    discriminate Hl. }
  split; [exact Hq|].
  exact (handler_throws_exactly_when unit fresh_client (Message (Text (js "null")))
           TypeError Hq).
Defined.

Lemma host_equation_after_host_change_witness :
  let ns := [Message (Text (jq "{'type':'roomJoined','roomId':'R1','ownerId':5}"))] in
  let text := jq "{'type':'makeHost','oldHostId':5}" in
  let d := VObj 1%N [(js "type", VStr (js "makeHost"));
                     (js "oldHostId", VNum (Num.of_Z 5))] in
  sess fresh_client = initial_session /\
  JSON.parse text (next_loc (run fresh_client ns)) = Some (d, 2%N) /\
  (is_type d "makeHost" = true \/ is_type d "reassignedHost" = true) /\
  host_equation (sess (deliver (run fresh_client ns) (Message (Text text)))).
Proof.
  intros ns text d.
  assert (Hp : JSON.parse text (next_loc (run fresh_client ns)) = Some (d, 2%N))
    by (vm_compute; reflexivity).
  assert (Ht : is_type d "makeHost" = true \/ is_type d "reassignedHost" = true)
    by (left; vm_compute; reflexivity).
  split; [reflexivity|]. split; [exact Hp|]. split; [exact Ht|].
  exact (host_equation_after_host_change unit fresh_client ns text d 2%N
           eq_refl Hp Ht).
Defined.

Lemma call_sends_one_frame_witness :
  let c := AddTag (VStr (js "ranked")) in
  ws open_client = Some {| readyState := OPEN; outbox := [] |} /\
  (fst (call c open_client) = Normal tt /\
   exists x,
     ws (snd (call c open_client)) = Some {| readyState := OPEN; outbox := [] ++ [x] |} /\
     exists obj, x = SentText obj /\ field obj "type" = VStr (js "setRoomTag")) /\
  sess (snd (call c open_client)) = sess open_client /\
  listeners (snd (call c open_client)) = listeners open_client /\
  app (snd (call c open_client)) = app open_client /\
  trace (snd (call c open_client)) = trace open_client.
Proof.
  intros c.
  assert (H : ws open_client = Some {| readyState := OPEN; outbox := [] |})
    by (vm_compute; reflexivity).
  split; [exact H|].
  exact (call_sends_one_frame unit c open_client [] H).
Defined.

Lemma createRoom_frame_witness :
  tag_list (VArr 100%N [VStr (js "ranked")]) = Some [VStr (js "ranked")] /\
  ws open_client = Some {| readyState := OPEN; outbox := [] |} /\
  exists l l' md,
    ws (snd (createRoom unit (VArr 100%N [VStr (js "ranked")]) VUndefined (VBool true)
               VUndefined open_client))
    = Some {| readyState := OPEN;
              outbox := [] ++
                [SentText (VObj l
                   [ (js "type", VStr (js "createRoom"));
                     (js "tags",
                       VArr l' ([VStr (js "ranked")]
                                ++ [VStr (js "game:" ++ gameName open_client)]
                                ++ (if truthy (VBool true)
                                    then [VStr (js "private")] else [])));
                     (js "maxClients", VNum (Num.of_Z 8));
                     (js "metaData", md) ])] |} /\
    (VUndefined <> VUndefined -> md = VUndefined) /\
    (VUndefined = VUndefined -> exists l0, md = VObj l0 []).
Proof.
  assert (H : ws open_client = Some {| readyState := OPEN; outbox := [] |})
    by (vm_compute; reflexivity).
  split; [reflexivity|]. split; [exact H|].
  exact (createRoom_frame unit (VArr 100%N [VStr (js "ranked")]) VUndefined (VBool true)
           VUndefined [VStr (js "ranked")] open_client [] eq_refl H).
Defined.

Lemma listRooms_frame_witness :
  tag_list VUndefined = Some [] /\
  ws open_client = Some {| readyState := OPEN; outbox := [] |} /\
  exists l l',
    ws (snd (listRooms unit VUndefined open_client))
    = Some {| readyState := OPEN;
              outbox := [] ++
                [SentText (VObj l
                   [ (js "type", VStr (js "listRooms"));
                     (js "tags",
                       VArr l' ([] ++ [VStr (js "game:" ++ gameName open_client)])) ])] |}.
Proof.
  assert (H : ws open_client = Some {| readyState := OPEN; outbox := [] |})
    by (vm_compute; reflexivity).
  split; [reflexivity|]. split; [exact H|].
  exact (listRooms_frame unit VUndefined [] open_client [] eq_refl H).
Defined.

Lemma reassignedHost_integer_ids_witness :
  let w := run fresh_client [Message (Text (jq "{'type':'assignId','playerId':7}"))] in
  let text := jq "{'type':'reassignedHost','newHostId':9,'oldHostId':7}" in
  let d := VObj 1%N [(js "type", VStr (js "reassignedHost"));
                     (js "newHostId", VNum (Num.of_Z 9));
                     (js "oldHostId", VNum (Num.of_Z 7))] in
  (0 <= 7 < 2 ^ 53) /\ (0 <= 9 < 2 ^ 53) /\
  playerId (sess w) = VNum (Num.of_Z 7) /\
  JSON.parse text (next_loc w) = Some (d, 2%N) /\
  is_type d "reassignedHost" = true /\
  field d "newHostId" = VNum (Num.of_Z 9) /\
  ownerId (sess (deliver w (Message (Text text)))) = VNum (Num.of_Z 9) /\
  isHost (sess (deliver w (Message (Text text)))) = (7 =? 9) /\
  playerId (sess (deliver w (Message (Text text)))) = VNum (Num.of_Z 7).
Proof.
  intros w text d.
  assert (H7 : 0 <= 7 < 2 ^ 53) by (split; [discriminate | reflexivity]).
  assert (H9 : 0 <= 9 < 2 ^ 53) by (split; [discriminate | reflexivity]).
  assert (Hpid : playerId (sess w) = VNum (Num.of_Z 7)) by (vm_compute; reflexivity).
  assert (Hp : JSON.parse text (next_loc w) = Some (d, 2%N)) by (vm_compute; reflexivity).
  assert (Ht : is_type d "reassignedHost" = true) by (vm_compute; reflexivity).
  assert (Hn : field d "newHostId" = VNum (Num.of_Z 9)) by (vm_compute; reflexivity).
  split; [exact H7|]. split; [exact H9|]. split; [exact Hpid|]. split; [exact Hp|].
  split; [exact Ht|]. split; [exact Hn|].
  exact (reassignedHost_integer_ids unit w text d 2%N 7 9 H7 H9 Hpid Hp Ht Hn).
Defined.
